(** * agent-from-scratch: the durable message store and the model invocation

    A shallow embedding of [src/memory.ts] (metadata enrichment and
    stripping, bulk append, history retrieval, tool-response recording) and
    of [runLLM] (construction and submission of the chat-completion
    request), followed by the properties the specification states about
    them.

    JavaScript objects are finite maps from property names to JSON values
    ([gmap string json]), so two objects are equal when they have the same
    properties with the same values, whatever the order the properties were
    written in; arrays are lists.  The ambient collaborators of
    the code (the identifier generator, the wall clock, the JSON file behind
    lowdb, the chat-completion endpoint) are explicit: the memory operations
    thread a [World] through a state-and-exception monad, and [runLLM] is a
    small interaction tree whose only event is the endpoint call. *)

From Stdlib Require Import ZArith QArith Ascii String.
From stdpp Require Import numbers strings gmap fin_maps sorting list.
Close Scope Q_scope.
Open Scope string_scope.
Open Scope list_scope.

(** ** JSON values *)

(** What a property of a message can hold: the values that survive the
    JSON document lowdb keeps on disk. *)
#[warnings="-register-all"]
Inductive json : Type :=
| JNull
| JBool (b : bool)
| JNum (q : Q)
| JStr (s : string)
| JArr (items : list json)
| JObj (fields : list (string * json)).

(** A JavaScript object used as a record of named properties. *)
Abbreviation object := (gmap string json).

(** ** Outcomes of fallible operations *)

Inductive error : Type :=
| PersistenceError   (* db.json could not be read or written *)
| EndpointError      (* the chat-completion endpoint rejected the request *)
| TypeError.         (* property access on undefined *)

Inductive Result (A : Type) : Type :=
| Ok (a : A)
| Err (e : error).
Arguments Ok {A} a.
Arguments Err {A} e.

(** ** Rendering an instant as [Date.prototype.toISOString] does *)

Module Iso.

Local Open Scope Z_scope.

Definition ms_per_day : Z := 86400000.

(** Days of the 400-year era that precede year [yoe] of the era; the years
    of an era start on the first of March. *)
Definition days_before_year (yoe : Z) : Z := 365 * yoe + yoe `div` 4 - yoe `div` 100.

(** The year of the era that day [doe] of the era falls in. *)
Definition year_of_era (doe : Z) : Z :=
  (doe - doe `div` 1460 + doe `div` 36524 - doe `div` 146096) `div` 365.

(** The month, counted from March, that day [doy] of such a year falls in,
    and the days of the year that precede a month. *)
Definition month_index (doy : Z) : Z := (5 * doy + 2) `div` 153.

Definition days_before_month (mp : Z) : Z := (153 * mp + 2) `div` 5.

(** Proleptic Gregorian date of a day number counted from 1970-01-01. *)
Definition civil_from_days (days : Z) : Z * Z * Z :=
  let z := days + 719468 in
  let era := z `div` 146097 in
  let doe := z `mod` 146097 in
  let yoe := year_of_era doe in
  let doy := doe - days_before_year yoe in
  let mp := month_index doy in
  let d := doy - days_before_month mp + 1 in
  let m := if mp <? 10 then mp + 3 else mp - 9 in
  let y := yoe + era * 400 + (if m <=? 2 then 1 else 0) in
  (y, m, d).

Definition digit (n : Z) : ascii := ascii_of_nat (48 + Z.to_nat (n `mod` 10))%nat.

(** The [width] low decimal digits of [n], most significant first. *)
Fixpoint pad (width : nat) (n : Z) : string :=
  match width with
  | O => EmptyString
  | S w => pad w (n `div` 10) +:+ String (digit n) EmptyString
  end.

(** Four digits for the years 0000 to 9999, a sign and six digits outside. *)
Definition year_string (y : Z) : string :=
  if (0 <=? y) && (y <=? 9999) then pad 4 y
  else if y <? 0 then "-" +:+ pad 6 (- y)
  else "+" +:+ pad 6 y.

(** The time of day in a fixed-width form: hours, minutes, seconds and
    milliseconds of the millisecond [rest] of a day. *)
Definition time_string (rest : Z) : string :=
  pad 2 (rest `div` 3600000) +:+ ":" +:+
  pad 2 ((rest `div` 60000) `mod` 60) +:+ ":" +:+
  pad 2 ((rest `div` 1000) `mod` 60) +:+ "." +:+
  pad 3 (rest `mod` 1000) +:+ "Z".

(** [t] is a time value: milliseconds since 1970-01-01T00:00:00.000Z. *)
Definition toISOString (t : Z) : string :=
  let days := t `div` ms_per_day in
  let rest := t `mod` ms_per_day in
  let '(y, m, d) := civil_from_days days in
  year_string y +:+ "-" +:+ pad 2 m +:+ "-" +:+ pad 2 d +:+ "T" +:+
  time_string rest.

(** A date as a single number that orders dates. *)
Definition date_key (date : Z * Z * Z) : Z :=
  let '(y, m, d) := date in (12 * y + m) * 32 + d.

End Iso.

(** ** The memory component, [src/memory.ts] *)

Module Memory.

(** [type Data = { messages: MessageWithMetadata[] }] *)
Record Data : Type := { messages : list object }.

(** Everything outside the module that the memory operations read or
    change.  [uuid_source] lists the results of the successive [uuidv4()]
    calls and [clock] the wall-clock readings (as time values) of the
    successive [new Date()]; [io_fault n] tells whether the [n]-th access
    to db.json fails.  [db_json] is the document in the file as lowdb
    parses it, [None] while the file does not exist.  [defaultData] is the module-level constant
    of that name: lowdb hands this very object out as [db.data] when there
    is no file, so a [push] on it is visible to every later [getDb]. *)
Record World : Type := {
  uuid_source : nat → string;
  uuid_calls : nat;
  clock : nat → Z;
  clock_reads : nat;
  io_fault : nat → bool;
  io_ops : nat;
  db_json : option Data;
  defaultData : Data;
}.

(** Operations run in a world and either return or throw; the world a
    throwing operation leaves behind keeps the changes made before the
    throw. *)
Definition M (A : Type) : Type := World → Result A * World.

#[export] Instance M_ret : MRet M := λ A a w, (Ok a, w).

#[export] Instance M_bind : MBind M :=
  λ A B k c w, match c w with
               | (Ok a, w') => k a w'
               | (Err e, w') => (Err e, w')
               end.

(** *** Ambient generators *)

Definition uuidv4 : M string :=
  λ w, (Ok (uuid_source w (uuid_calls w)),
        {| uuid_source := uuid_source w; uuid_calls := S (uuid_calls w);
           clock := clock w; clock_reads := clock_reads w;
           io_fault := io_fault w; io_ops := io_ops w;
           db_json := db_json w; defaultData := defaultData w |}).

(** [new Date()]: the time value of the construction instant. *)
Definition newDate : M Z :=
  λ w, (Ok (clock w (clock_reads w)),
        {| uuid_source := uuid_source w; uuid_calls := uuid_calls w;
           clock := clock w; clock_reads := S (clock_reads w);
           io_fault := io_fault w; io_ops := io_ops w;
           db_json := db_json w; defaultData := defaultData w |}).

(** *** Metadata *)

(** [{ ...message, id: uuidv4(), createdAt: new Date().toISOString() }] *)
Definition addMetadata (message : object) : M object :=
  id ← uuidv4 ;
  now ← newDate ;
  mret (<["createdAt" := JStr (Iso.toISOString now)]>
         (<["id" := JStr id]> message)).

(** [const { id, createdAt, ...messageWithoutMetadata } = message] *)
Definition removeMetadata (message : object) : object :=
  delete "createdAt" (delete "id" message).

(** *** The lowdb handle *)

(** What [db.data] refers to: the shared [defaultData] object when
    db.json does not exist, a document freshly parsed from the file
    otherwise. *)
Inductive Low : Type :=
| LowDefault
| LowLoaded (d : Data).

Definition next_io (w : World) : World :=
  {| uuid_source := uuid_source w; uuid_calls := uuid_calls w;
     clock := clock w; clock_reads := clock_reads w;
     io_fault := io_fault w; io_ops := S (io_ops w);
     db_json := db_json w; defaultData := defaultData w |}.

(** Reading db.json: fails, or yields the document ([None] if absent). *)
Definition read_file : M (option Data) :=
  λ w, if io_fault w (io_ops w) then (Err PersistenceError, next_io w)
       else (Ok (db_json w), next_io w).

(** Writing db.json: fails and leaves the file as it was, or replaces the
    whole document.  A document here is a list of [json] objects, which
    always has a JSON text; a value without one (a BigInt, a cycle) is not
    a [json], and the failure of [JSON.stringify] on it is not modelled:
    the write fails by the access, never by what is written. *)
Definition write_file (d : Data) : M unit :=
  λ w, if io_fault w (io_ops w) then (Err PersistenceError, next_io w)
       else (Ok tt,
             {| uuid_source := uuid_source w; uuid_calls := uuid_calls w;
                clock := clock w; clock_reads := clock_reads w;
                io_fault := io_fault w; io_ops := S (io_ops w);
                db_json := Some d; defaultData := defaultData w |}).

(** [await JSONFilePreset<Data>('db.json', defaultData)] *)
Definition getDb : M Low :=
  file ← read_file ;
  mret (match file with
       | Some d => LowLoaded d
       | None => LowDefault
       end).

(** [db.data] *)
Definition data (db : Low) : M Data :=
  λ w, (Ok (match db with
            | LowDefault => defaultData w
            | LowLoaded d => d
            end), w).

(** [db.data.messages.push(...items)]: the array is changed in place. *)
Definition push (db : Low) (items : list object) : M Low :=
  match db with
  | LowDefault =>
      λ w, (Ok LowDefault,
            {| uuid_source := uuid_source w; uuid_calls := uuid_calls w;
               clock := clock w; clock_reads := clock_reads w;
               io_fault := io_fault w; io_ops := io_ops w;
               db_json := db_json w;
               defaultData := {| messages := messages (defaultData w) ++ items |} |})
  | LowLoaded d => mret (LowLoaded {| messages := messages d ++ items |})
  end.

(** [await db.write()] *)
Definition write (db : Low) : M unit :=
  d ← data db ; write_file d.

(** *** The exported operations *)

Definition addMessages (msgs : list object) : M unit :=
  db ← getDb ;
  messagesWithMetadata ← mapM addMetadata msgs ;
  db' ← push db messagesWithMetadata ;
  write db'.

Definition getMessages : M (list object) :=
  db ← getDb ;
  d ← data db ;
  mret (map removeMetadata (messages d)).

(** [{ role: 'tool', content: toolResponse, tool_call_id: toolCallId }] *)
Definition tool_message (toolCallId : string) (toolResponse : json) : object :=
  <["role" := JStr "tool"]>
    (<["content" := toolResponse]>
       (<["tool_call_id" := JStr toolCallId]> ∅)).

Definition saveToolResponse (toolCallId : string) (toolResponse : json) : M unit :=
  addMessages [tool_message toolCallId toolResponse].

(** *** Vocabulary of the specification *)

Definition roles : list string := ["system"; "user"; "assistant"; "tool"].

(** Modelled from the spec: the type [AIMessage] is imported from a
    module that is not part of the sources.  A Message has a [role] (one
    of system, user, assistant, tool), a [content] and, only for the role
    tool, a [tool_call_id]. *)
Definition valid_message (m : object) : bool :=
  match m !! "role" with
  | Some (JStr r) =>
      bool_decide (r ∈ roles)
      && bool_decide (is_Some (m !! "content"))
      && bool_decide (dom m ⊆ ({["role"; "content"; "tool_call_id"]} : gset string))
      && bool_decide (is_Some (m !! "tool_call_id") ↔ r = "tool")
  | _ => false
  end.

(** The document a [getDb] at [w] hands out as [db.data]. *)
Definition store (w : World) : Data :=
  match db_json w with
  | Some d => d
  | None => defaultData w
  end.

(** The conversation as the callers see it. *)
Definition history (w : World) : list object :=
  map removeMetadata (messages (store w)).

End Memory.

(** ** The invocation component, [runLLM] *)

Module LLM.

(** Modelled from the spec: the tool definition the endpoint receives.
    [zodFunction], which builds it, belongs to the openai helper library
    and not to the sources; it converts a ToolDescriptor into the wire
    schema the endpoint expects, the name and JSON-schema-shaped
    parameters. *)
Record ToolDefinition : Type := {
  def_name : string;
  def_parameters : json;
}.

(** The argument of [localai.chat.completions.create]. *)
Record Request : Type := {
  model : string;
  temperature : Q;
  messages : list object;
  tools : list ToolDefinition;
  tool_choice : string;
  parallel_tool_calls : bool;
}.

Record Choice : Type := {
  index : nat;
  message : object;
  finish_reason : string;
}.

Record Response : Type := { choices : list Choice }.

(** An asynchronous computation whose only interaction with the outside
    is the chat-completion call: it returns, throws, or submits a request
    and goes on with the response. *)
Inductive Prog (A : Type) : Type :=
| Return (a : A)
| Throw (e : error)
| Create (req : Request) (k : Response → Prog A).
Arguments Return {A} a.
Arguments Throw {A} e.
Arguments Create {A} req k.

(** The endpoint answers a request with a response or rejects it. *)
Definition Endpoint : Type := Request → Result Response.

(** Running a computation against an endpoint: the requests submitted, in
    order, and the outcome.  A rejected request fails the computation. *)
Fixpoint run {A} (endpoint : Endpoint) (p : Prog A) : list Request * Result A :=
  match p with
  | Return a => ([], Ok a)
  | Throw e => ([], Err e)
  | Create req k =>
      match endpoint req with
      | Ok response =>
          let '(sent, outcome) := run endpoint (k response) in
          (req :: sent, outcome)
      | Err e => ([req], Err e)
      end
  end.

Definition models : list string :=
  ["gpt-4o-mini"; "mistral-nemo:latest"; "nemotron-mini:latest";
   "codellama:13b"; "llama3.1:latest"].

Section Invocation.

(** [systemPrompt] is imported from a module outside the sources. *)
Variable systemPrompt : string.

(** [z.AnyZodObject] and its rendering as a JSON schema. *)
Variable AnyZodObject : Type.
Variable zodToJsonSchema : AnyZodObject → json.

(** [{ name: string; parameters: z.AnyZodObject }] *)
Record ToolDescriptor : Type := {
  name : string;
  parameters : AnyZodObject;
}.

(** Modelled from the spec: the translation of one ToolDescriptor into
    the endpoint's tool definition, name and parameters carried over. *)
Definition zodFunction (tool : ToolDescriptor) : ToolDefinition :=
  {| def_name := name tool;
     def_parameters := zodToJsonSchema (parameters tool) |}.

(** The destructured parameter of [runLLM]; [None] is an omitted
    property, which takes its default. *)
Record Args : Type := {
  arg_model : option string;
  arg_messages : list object;
  arg_temperature : option Q;
  arg_tools : option (list ToolDescriptor);
}.

(** [{ role: 'system', content: systemPrompt }] *)
Definition system_message : object :=
  <["role" := JStr "system"]> (<["content" := JStr systemPrompt]> ∅).

Definition runLLM (args : Args) : Prog object :=
  let model := default (nth 1 models "") (arg_model args) in
  let temperature := default 0.1%Q (arg_temperature args) in
  let tools := default [] (arg_tools args) in
  let formattedTools := map zodFunction tools in
  Create
    {| model := model;
       temperature := temperature;
       messages := system_message :: arg_messages args;
       tools := formattedTools;
       tool_choice := "auto";
       parallel_tool_calls := false |}
    (λ response,
       match choices response !! 0%nat with
       | Some choice => Return (message choice)
       | None => Throw TypeError
       end).

End Invocation.

Arguments name {AnyZodObject} _.
Arguments parameters {AnyZodObject} _.
Arguments arg_model {AnyZodObject} _.
Arguments arg_messages {AnyZodObject} _.
Arguments arg_temperature {AnyZodObject} _.
Arguments arg_tools {AnyZodObject} _.

End LLM.

(** ** Vocabulary for the statements *)

Module Spec.
Import Memory.

(** The stored form of [m] when the [i]-th identifier and the [j]-th
    clock reading of the world are attached to it. *)
Definition stamp (w : World) (i j : nat) (m : object) : object :=
  <["createdAt" := JStr (Iso.toISOString (clock w j))]>
    (<["id" := JStr (uuid_source w i)]> m).

(** Successive messages take successive identifiers and readings. *)
Fixpoint stamps (w : World) (i j : nat) (msgs : list object) : list object :=
  match msgs with
  | [] => []
  | m :: msgs' => stamp w i j m :: stamps w (S i) (S j) msgs'
  end.

(** The world after [n] further identifiers and clock readings. *)
Definition drawn (n : nat) (w : World) : World :=
  {| uuid_source := uuid_source w; uuid_calls := n + uuid_calls w;
     clock := clock w; clock_reads := n + clock_reads w;
     io_fault := io_fault w; io_ops := io_ops w;
     db_json := db_json w; defaultData := defaultData w |}.

(** Neither metadata property is present. *)
Definition bare (m : object) : Prop :=
  m !! "id" = None ∧ m !! "createdAt" = None.

(** [s] carries every property of [m] other than the two metadata ones. *)
Definition records (s m : object) : Prop :=
  ∀ k : string, k ≠ "id" → k ≠ "createdAt" → s !! k = m !! k.

(** The identifier generator never returns the same value twice. *)
Definition fresh_ids (w : World) : Prop :=
  ∀ i j : nat, uuid_source w i = uuid_source w j → i = j.

(** The wall clock is never set back between two readings. *)
Definition steady_clock (w : World) : Prop :=
  ∀ i j : nat, (i ≤ j)%nat → (clock w i ≤ clock w j)%Z.

(** The instant [t] falls in the years 0000 to 9999, where [toISOString]
    uses its four-digit form of the year. *)
Definition common_era (t : Z) : Prop :=
  (-62167219200000 ≤ t ≤ 253402300799999)%Z.

(** What the specification promises of two successive enrichments of the
    same message: different identifiers, and creation stamps that do not
    decrease. *)
Definition successive_enrichments_ordered (w : World) (m : object) : Prop :=
  ∃ s1 w1 s2 w2 id1 id2 at1 at2,
    addMetadata m w = (Ok s1, w1) ∧ addMetadata m w1 = (Ok s2, w2) ∧
    s1 !! "id" = Some (JStr id1) ∧ s2 !! "id" = Some (JStr id2) ∧
    id1 ≠ id2 ∧
    s1 !! "createdAt" = Some (JStr at1) ∧
    s2 !! "createdAt" = Some (JStr at2) ∧
    String.leb at1 at2 = true.

(** *** Sample inputs *)

(** A unary numeral, to tell sample identifiers apart. *)
Fixpoint tally (n : nat) : string :=
  match n with
  | O => ""
  | S n' => String "i" (tally n')
  end.

(** A fresh process on a machine without db.json: identifiers are
    numbered, the clock advances by a millisecond per reading from
    2024-11-02T10:34:56.789Z, file accesses succeed. *)
Definition quiet_world : World :=
  {| uuid_source := λ n, "uuid-" +:+ tally n; uuid_calls := 0;
     clock := λ n, (1730543696789 + Z.of_nat n)%Z; clock_reads := 0;
     io_fault := λ _, false; io_ops := 0;
     db_json := None; defaultData := {| messages := [] |} |}.

(** The same machine, identifiers numbered as before, with a clock that
    is set back by a second after its first reading. *)
Definition adverse_world : World :=
  {| uuid_source := λ n, "uuid-" +:+ tally n; uuid_calls := 0;
     clock := λ n, match n with
                   | O => 1730543696789%Z
                   | S _ => 1730543695789%Z
                   end;
     clock_reads := 0;
     io_fault := λ _, false; io_ops := 0;
     db_json := None; defaultData := {| messages := [] |} |}.

(** A machine whose clock passes from the year 9999 to the year 10000
    between its first two readings. *)
Definition rollover_world : World :=
  {| uuid_source := λ n, "uuid-" +:+ tally n; uuid_calls := 0;
     clock := λ n, (253402300799999 + Z.of_nat n)%Z; clock_reads := 0;
     io_fault := λ _, false; io_ops := 0;
     db_json := None; defaultData := {| messages := [] |} |}.

(** The quiet machine once db.json exists with an empty document. *)
Definition empty_file_world : World :=
  {| uuid_source := λ n, "uuid-" +:+ tally n; uuid_calls := 0;
     clock := λ n, (1730543696789 + Z.of_nat n)%Z; clock_reads := 0;
     io_fault := λ _, false; io_ops := 0;
     db_json := Some {| messages := [] |}; defaultData := {| messages := [] |} |}.

(** A machine on which the write that follows the first read fails. *)
Definition failing_disk_world : World :=
  {| uuid_source := λ n, "uuid-" +:+ tally n; uuid_calls := 0;
     clock := λ n, (1730543696789 + Z.of_nat n)%Z; clock_reads := 0;
     io_fault := λ n, bool_decide (n = 1); io_ops := 0;
     db_json := None; defaultData := {| messages := [] |} |}.

Definition hello : object :=
  <["role" := JStr "user"]> (<["content" := JStr "hello"]> ∅).

Definition hi_there : object :=
  <["role" := JStr "assistant"]> (<["content" := JStr "hi there"]> ∅).

(** A machine on which no access to db.json succeeds. *)
Definition unreadable_world : World :=
  {| uuid_source := λ n, "uuid-" +:+ tally n; uuid_calls := 0;
     clock := λ n, (1730543696789 + Z.of_nat n)%Z; clock_reads := 0;
     io_fault := λ _, true; io_ops := 0;
     db_json := None; defaultData := {| messages := [] |} |}.

(** A machine whose db.json holds an empty document and on which the
    second access, the write of the first append, fails. *)
Definition failing_disk_with_file_world : World :=
  {| uuid_source := λ n, "uuid-" +:+ tally n; uuid_calls := 0;
     clock := λ n, (1730543696789 + Z.of_nat n)%Z; clock_reads := 0;
     io_fault := λ n, bool_decide (n = 1); io_ops := 0;
     db_json := Some {| messages := [] |}; defaultData := {| messages := [] |} |}.

(** The quiet machine after one append of two messages, after the record
    of a tool response, and after three appends of which one is empty. *)
Definition after_two_messages : World :=
  snd (addMessages [hello; hi_there] quiet_world).

Definition after_tool_response : World :=
  snd (saveToolResponse "call_42" (JStr "ok") quiet_world).

Definition after_three_appends : World :=
  snd (mapM addMessages [[hello; hi_there]; []; [hello]] quiet_world).

(** Where the metadata of a stored message comes from: the identifier is
    the [p.1]-th result of the generator and the stamp renders the [p.2]-th
    reading of the clock. *)
Definition origin (w : World) (p : nat * nat) (s : object) : Prop :=
  s !! "id" = Some (JStr (uuid_source w p.1)) ∧
  s !! "createdAt" = Some (JStr (Iso.toISOString (clock w p.2))).

(** One origin precedes another: an earlier call of the generator and an
    earlier reading of the clock. *)
Definition precedes (p q : nat * nat) : Prop := p.1 < q.1 ∧ p.2 < q.2.

(** The stored messages have their metadata from calls and readings already
    made, each later message from later ones. *)
Definition stamped_in_order (w : World) : Prop :=
  ∃ origins : list (nat * nat),
    Forall2 (origin w) origins (messages (store w)) ∧
    StronglySorted precedes origins ∧
    Forall (λ p, p.1 < uuid_calls w ∧ p.2 < clock_reads w) origins.

(** *** Sequences of calls *)

(** A call of one of the exported operations of the store. *)
Inductive operation : Type :=
| Append (msgs : list object)
| ReadAll
| RecordTool (toolCallId : string) (toolResponse : json).

(** The world a call leaves behind, whether it returned or threw. *)
Definition perform (w : World) (op : operation) : World :=
  match op with
  | Append msgs => snd (addMessages msgs w)
  | ReadAll => snd (getMessages w)
  | RecordTool toolCallId toolResponse =>
      snd (saveToolResponse toolCallId toolResponse w)
  end.

(** The world after a sequence of calls, each made after the previous one
    has ended. *)
Definition after (ops : list operation) (w : World) : World :=
  foldl perform w ops.

(** A session on the failing disk: an append whose write fails, a read, a
    tool response and a further append. *)
Definition sample_session : list operation :=
  [Append [hello]; ReadAll; RecordTool "call_42" (JStr "ok"); Append [hi_there; hello]].

(** The requests a computation submits to the endpoint, and how it ends. *)
Definition submitted {A} (endpoint : LLM.Endpoint) (p : LLM.Prog A) : list LLM.Request :=
  fst (LLM.run endpoint p).

Definition outcome {A} (endpoint : LLM.Endpoint) (p : LLM.Prog A) : Result A :=
  snd (LLM.run endpoint p).

(** The endpoint's answer to the first request submitted, if there was
    one. *)
Definition answered {A} (endpoint : LLM.Endpoint) (p : LLM.Prog A)
  : option (Result LLM.Response) :=
  endpoint <$> head (submitted endpoint p).

(** An endpoint that answers every request with the one given reply, and
    one that answers with no choice at all. *)
Definition replying (reply : object) : LLM.Endpoint :=
  λ _, Ok {| LLM.choices :=
               [{| LLM.index := 0; LLM.message := reply;
                   LLM.finish_reason := "stop" |}] |}.

Definition speechless : LLM.Endpoint := λ _, Ok {| LLM.choices := [] |}.

Definition sample_args : LLM.Args json :=
  {| LLM.arg_model := None; LLM.arg_messages := [hello];
     LLM.arg_temperature := None; LLM.arg_tools := None |}.

End Spec.

(** ** Timestamps: the order of instants and the order of their renderings *)

Section Timestamps.
Import Iso.
Local Open Scope Z_scope.

Lemma days_before_year_mono (a b : Z) :
  a ≤ b → days_before_year a ≤ days_before_year b.
Proof. unfold days_before_year. intros. Z.div_mod_to_equations. lia. Qed.

(** The year found for a day of the era is the year the day falls in. *)
Lemma year_of_era_spec (doe : Z) :
  0 ≤ doe ≤ 146096 →
  0 ≤ year_of_era doe ≤ 399 ∧
  0 ≤ doe - days_before_year (year_of_era doe) ≤ 365 ∧
  (doe < days_before_year (year_of_era doe + 1) ∨ year_of_era doe = 399).
Proof.
  intros Hdoe. unfold year_of_era, days_before_year.
  Z.div_mod_to_equations. lia.
Qed.

Lemma month_day_bounds (doy : Z) :
  0 ≤ doy ≤ 365 →
  0 ≤ month_index doy ≤ 11 ∧
  1 ≤ doy - days_before_month (month_index doy) + 1 ≤ 31.
Proof.
  intros Hdoy. unfold month_index, days_before_month.
  Z.div_mod_to_equations. lia.
Qed.

Lemma month_day_lt (doy1 doy2 : Z) :
  0 ≤ doy1 < doy2 → doy2 ≤ 365 →
  month_index doy1 * 32 + (doy1 - days_before_month (month_index doy1) + 1)
  < month_index doy2 * 32 + (doy2 - days_before_month (month_index doy2) + 1).
Proof.
  intros H1 H2. unfold month_index, days_before_month.
  Z.div_mod_to_equations. lia.
Qed.

(** Month and day of a civil date are in range, and its key is that of the
    date counted in years that start in March, moved by three months. *)
Lemma civil_from_days_spec (days : Z) :
  let z := days + 719468 in
  let doe := z `mod` 146097 in
  let yoe := year_of_era doe in
  let doy := doe - days_before_year yoe in
  let mp := month_index doy in
  let '(y, m, d) := civil_from_days days in
  1 ≤ m ≤ 12 ∧ 1 ≤ d ≤ 31 ∧
  date_key (y, m, d) =
    (12 * (yoe + z `div` 146097 * 400) + mp + 3) * 32
    + (doy - days_before_month mp + 1).
Proof.
  cbv zeta. unfold civil_from_days, date_key. cbv zeta.
  set (doe := (days + 719468) `mod` 146097).
  assert (0 ≤ doe ≤ 146096) as Hdoe
    by (subst doe; pose proof (Z.mod_pos_bound (days + 719468) 146097); lia).
  destruct (year_of_era_spec doe Hdoe) as (_ & Hdoy & _).
  destruct (month_day_bounds _ Hdoy) as [Hmp Hd].
  set (mp := month_index (doe - days_before_year (year_of_era doe))) in *.
  destruct (mp <? 10) eqn:Hlate.
  - apply Z.ltb_lt in Hlate.
    destruct (mp + 3 <=? 2) eqn:Hjan; [apply Z.leb_le in Hjan; lia |].
    repeat split; lia.
  - apply Z.ltb_ge in Hlate.
    destruct (mp - 9 <=? 2) eqn:Hjan; [| apply Z.leb_gt in Hjan; lia].
    repeat split; lia.
Qed.

(** A later day has a later date. *)
Lemma civil_from_days_lt (a b : Z) :
  a < b → date_key (civil_from_days a) < date_key (civil_from_days b).
Proof.
  intros Hab.
  pose proof (civil_from_days_spec a) as Ha.
  pose proof (civil_from_days_spec b) as Hb.
  cbv zeta in Ha, Hb.
  destruct (civil_from_days a) as [[y1 m1] d1].
  destruct (civil_from_days b) as [[y2 m2] d2].
  destruct Ha as (_ & _ & ->). destruct Hb as (_ & _ & ->).
  set (z1 := a + 719468). set (z2 := b + 719468).
  assert (z1 < z2) as Hz by (subst z1 z2; lia).
  pose proof (Z.div_mod z1 146097 ltac:(lia)) as Hz1.
  pose proof (Z.div_mod z2 146097 ltac:(lia)) as Hz2.
  pose proof (Z.mod_pos_bound z1 146097 ltac:(lia)) as Hd1.
  pose proof (Z.mod_pos_bound z2 146097 ltac:(lia)) as Hd2.
  set (e1 := z1 `div` 146097) in *. set (e2 := z2 `div` 146097) in *.
  set (doe1 := z1 `mod` 146097) in *. set (doe2 := z2 `mod` 146097) in *.
  destruct (year_of_era_spec doe1 ltac:(lia)) as (Hy1 & Hdoy1 & Hnext1).
  destruct (year_of_era_spec doe2 ltac:(lia)) as (Hy2 & Hdoy2 & Hnext2).
  destruct (month_day_bounds _ Hdoy1) as [Hmp1 Hday1].
  destruct (month_day_bounds _ Hdoy2) as [Hmp2 Hday2].
  assert (e1 ≤ e2) as He by lia.
  destruct (decide (e1 = e2)) as [Heq | Hne]; [| lia].
  assert (doe1 < doe2) as Hdoe by lia.
  assert (year_of_era doe1 ≤ year_of_era doe2) as Hyears.
  { destruct (decide (year_of_era doe1 ≤ year_of_era doe2)) as [|Hgt]; [done |].
    pose proof (days_before_year_mono (year_of_era doe2 + 1) (year_of_era doe1)
                  ltac:(lia)).
    lia. }
  destruct (decide (year_of_era doe1 = year_of_era doe2)) as [Hsame | Hdiff]; [| lia].
  rewrite Heq, Hsame in *.
  pose proof (month_day_lt (doe1 - days_before_year (year_of_era doe2))
                (doe2 - days_before_year (year_of_era doe2)) ltac:(lia) ltac:(lia)).
  lia.
Qed.

Lemma civil_from_days_le (a b : Z) :
  a ≤ b → date_key (civil_from_days a) ≤ date_key (civil_from_days b).
Proof.
  intros Hab. destruct (decide (a = b)) as [-> | Hne]; [lia |].
  pose proof (civil_from_days_lt a b ltac:(lia)). lia.
Qed.

(** *** Fixed-width decimal fields compare as their numbers *)

Lemma append_String (c : ascii) (s1 s2 : string) :
  String c s1 +:+ s2 = String c (s1 +:+ s2).
Proof. reflexivity. Qed.

Lemma append_empty (s : string) : "" +:+ s = s.
Proof. reflexivity. Qed.

Lemma append_cons (s1 s2 : string) (c : ascii) :
  (s1 +:+ String c "") +:+ s2 = s1 +:+ String c s2.
Proof.
  induction s1 as [|c1 s1 IH]; [done |].
  rewrite !append_String. by f_equal.
Qed.

Lemma compare_cons (c : ascii) (s1 s2 : string) :
  String.compare (String c s1) (String c s2) = String.compare s1 s2.
Proof. simpl. unfold Ascii.compare. by rewrite N.compare_refl. Qed.

Lemma digit_compare (a b : Z) :
  Ascii.compare (digit a) (digit b) = (a `mod` 10 ?= b `mod` 10).
Proof.
  unfold digit.
  pose proof (Z.mod_pos_bound a 10 ltac:(lia)) as Ha.
  pose proof (Z.mod_pos_bound b 10 ltac:(lia)) as Hb.
  revert Ha Hb. generalize (a `mod` 10) (b `mod` 10). intros x y Hx Hy.
  assert (x = 0 ∨ x = 1 ∨ x = 2 ∨ x = 3 ∨ x = 4 ∨ x = 5 ∨ x = 6 ∨ x = 7 ∨
          x = 8 ∨ x = 9) as Hcases_x by lia.
  assert (y = 0 ∨ y = 1 ∨ y = 2 ∨ y = 3 ∨ y = 4 ∨ y = 5 ∨ y = 6 ∨ y = 7 ∨
          y = 8 ∨ y = 9) as Hcases_y by lia.
  clear Hx Hy.
  repeat (destruct Hcases_x as [-> | Hcases_x]);
    repeat (destruct Hcases_y as [-> | Hcases_y]); subst; reflexivity.
Qed.

Lemma pad_compare (width : nat) (a b : Z) (s1 s2 : string) :
  0 ≤ a < 10 ^ Z.of_nat width → 0 ≤ b < 10 ^ Z.of_nat width →
  String.compare (pad width a +:+ s1) (pad width b +:+ s2) =
    match a ?= b with
    | Eq => String.compare s1 s2
    | c => c
    end.
Proof.
  revert a b s1 s2. induction width as [|width IH]; intros a b s1 s2 Ha Hb.
  - change (10 ^ Z.of_nat 0) with 1 in *.
    assert (a = 0) as -> by lia. assert (b = 0) as -> by lia. reflexivity.
  - rewrite Nat2Z.inj_succ, Z.pow_succ_r in Ha, Hb by lia.
    cbn [pad]. rewrite !append_cons.
    rewrite IH by (split; [apply Z.div_pos | apply Z.div_lt_upper_bound]; lia).
    cbn [String.compare].
    rewrite digit_compare.
    destruct (Z.compare_spec (a `div` 10) (b `div` 10));
      destruct (Z.compare_spec (a `mod` 10) (b `mod` 10));
      destruct (Z.compare_spec a b);
      try reflexivity; exfalso; Z.div_mod_to_equations; lia.
Qed.

(** *** Renderings in the years 0000 to 9999 *)

Lemma civil_from_days_common_era (days : Z) :
  -719528 ≤ days ≤ 2932896 →
  let '(y, m, d) := civil_from_days days in
  0 ≤ y ≤ 9999 ∧ 1 ≤ m ≤ 12 ∧ 1 ≤ d ≤ 31.
Proof.
  intros [Hlo Hhi].
  apply civil_from_days_le in Hlo, Hhi.
  pose proof (civil_from_days_spec days) as Hspec. cbv zeta in Hspec.
  destruct (civil_from_days days) as [[y m] d].
  destruct Hspec as (Hm & Hd & _).
  change (date_key (civil_from_days (-719528))) with 33 in Hlo.
  change (date_key (civil_from_days 2932896)) with 3840031 in Hhi.
  unfold date_key in Hlo, Hhi. lia.
Qed.

Lemma time_string_leb (r1 r2 : Z) :
  0 ≤ r1 → r1 ≤ r2 → r2 < ms_per_day →
  match String.compare (time_string r1) (time_string r2) with
  | Gt => false
  | _ => true
  end = true.
Proof.
  unfold ms_per_day, time_string. intros Hlo Hle Hhi.
  assert (0 ≤ r1 `div` 3600000 < 100 ∧ 0 ≤ r2 `div` 3600000 < 100) as [? ?]
    by (Z.div_mod_to_equations; lia).
  pose proof (Z.mod_pos_bound (r1 `div` 60000) 60 ltac:(lia)).
  pose proof (Z.mod_pos_bound (r2 `div` 60000) 60 ltac:(lia)).
  pose proof (Z.mod_pos_bound (r1 `div` 1000) 60 ltac:(lia)).
  pose proof (Z.mod_pos_bound (r2 `div` 1000) 60 ltac:(lia)).
  pose proof (Z.mod_pos_bound r1 1000 ltac:(lia)).
  pose proof (Z.mod_pos_bound r2 1000 ltac:(lia)).
  rewrite pad_compare by (simpl (10 ^ Z.of_nat _); lia).
  destruct (Z.compare_spec (r1 `div` 3600000) (r2 `div` 3600000)) as [Hh | Hh | Hh];
    [| reflexivity | exfalso; Z.div_mod_to_equations; lia].
  rewrite !append_String, !append_empty, compare_cons.
  rewrite pad_compare by (simpl (10 ^ Z.of_nat _); lia).
  destruct (Z.compare_spec ((r1 `div` 60000) `mod` 60) ((r2 `div` 60000) `mod` 60))
    as [Hm | Hm | Hm]; [| reflexivity | exfalso; Z.div_mod_to_equations; lia].
  rewrite compare_cons.
  rewrite pad_compare by (simpl (10 ^ Z.of_nat _); lia).
  destruct (Z.compare_spec ((r1 `div` 1000) `mod` 60) ((r2 `div` 1000) `mod` 60))
    as [Hs | Hs | Hs]; [| reflexivity | exfalso; Z.div_mod_to_equations; lia].
  rewrite compare_cons.
  rewrite pad_compare by (simpl (10 ^ Z.of_nat _); lia).
  destruct (Z.compare_spec (r1 `mod` 1000) (r2 `mod` 1000))
    as [Hms | Hms | Hms]; [reflexivity | reflexivity |].
  exfalso. Z.div_mod_to_equations. lia.
Qed.

(** Within the years 0000 to 9999 the renderings of two instants are
    ordered, as strings, like the instants. *)
Lemma toISOString_leb (t1 t2 : Z) :
  -62167219200000 ≤ t1 → t1 ≤ t2 → t2 ≤ 253402300799999 →
  String.leb (toISOString t1) (toISOString t2) = true.
Proof.
  intros Hlo Hle Hhi. unfold String.leb, toISOString. cbv zeta.
  pose proof (Z.div_mod t1 ms_per_day ltac:(done)) as Ht1.
  pose proof (Z.div_mod t2 ms_per_day ltac:(done)) as Ht2.
  pose proof (Z.mod_pos_bound t1 ms_per_day ltac:(done)) as Hr1.
  pose proof (Z.mod_pos_bound t2 ms_per_day ltac:(done)) as Hr2.
  set (days1 := t1 `div` ms_per_day) in *. set (days2 := t2 `div` ms_per_day) in *.
  set (r1 := t1 `mod` ms_per_day) in *. set (r2 := t2 `mod` ms_per_day) in *.
  unfold ms_per_day in Ht1, Ht2, Hr1, Hr2.
  assert (days1 ≤ days2) as Hdays by lia.
  pose proof (civil_from_days_common_era days1 ltac:(lia)) as Hera1.
  pose proof (civil_from_days_common_era days2 ltac:(lia)) as Hera2.
  pose proof (civil_from_days_le days1 days2 Hdays) as Hkey.
  assert (days1 < days2 →
          date_key (civil_from_days days1) < date_key (civil_from_days days2))
    as Hstrict by apply civil_from_days_lt.
  destruct (civil_from_days days1) as [[y1 m1] d1].
  destruct (civil_from_days days2) as [[y2 m2] d2].
  destruct Hera1 as (Hy1 & Hm1 & Hd1). destruct Hera2 as (Hy2 & Hm2 & Hd2).
  unfold date_key in Hkey, Hstrict. unfold year_string.
  replace ((0 <=? y1) && (y1 <=? 9999)) with true
    by (symmetry; apply andb_true_iff; split; apply Z.leb_le; lia).
  replace ((0 <=? y2) && (y2 <=? 9999)) with true
    by (symmetry; apply andb_true_iff; split; apply Z.leb_le; lia).
  rewrite pad_compare by (simpl (10 ^ Z.of_nat _); lia).
  destruct (Z.compare_spec y1 y2) as [-> | Hy | Hy]; [| reflexivity | lia].
  rewrite !append_String, !append_empty, compare_cons.
  rewrite pad_compare by (simpl (10 ^ Z.of_nat _); lia).
  destruct (Z.compare_spec m1 m2) as [-> | Hm | Hm]; [| reflexivity | lia].
  rewrite compare_cons.
  rewrite pad_compare by (simpl (10 ^ Z.of_nat _); lia).
  destruct (Z.compare_spec d1 d2) as [-> | Hd | Hd]; [| reflexivity | lia].
  rewrite compare_cons.
  apply time_string_leb; unfold ms_per_day; lia.
Qed.

End Timestamps.

(** ** Metadata: enrichment and stripping *)

Section Metadata.
Import Memory Spec.

Lemma addMetadata_run (m : object) (w : World) :
  addMetadata m w = (Ok (stamp w (uuid_calls w) (clock_reads w) m), drawn 1 w).
Proof. reflexivity. Qed.

Lemma Some_JStr_inj (a b : string) : Some (JStr a) = Some (JStr b) → a = b.
Proof. congruence. Qed.

Lemma addMetadata_run_next (m : object) (w : World) :
  addMetadata m (drawn 1 w) =
    (Ok (stamp w (S (uuid_calls w)) (S (clock_reads w)) m), drawn 2 w).
Proof. reflexivity. Qed.

Lemma stamp_id (w : World) (i j : nat) (m : object) :
  stamp w i j m !! "id" = Some (JStr (uuid_source w i)).
Proof.
  unfold stamp. rewrite lookup_insert_ne by done. apply lookup_insert_eq.
Qed.

Lemma stamp_createdAt (w : World) (i j : nat) (m : object) :
  stamp w i j m !! "createdAt" = Some (JStr (Iso.toISOString (clock w j))).
Proof. unfold stamp. apply lookup_insert_eq. Qed.

Lemma stamp_records (w : World) (i j : nat) (m : object) :
  records (stamp w i j m) m.
Proof.
  intros k Hid Hat. unfold stamp.
  rewrite !lookup_insert_ne by congruence. reflexivity.
Qed.

Lemma stamp_dom (w : World) (i j : nat) (m : object) :
  dom (stamp w i j m) = {["id"; "createdAt"]} ∪ dom m.
Proof. unfold stamp. rewrite !dom_insert_L. set_solver. Qed.

Lemma removeMetadata_lookup (s : object) (k : string) :
  removeMetadata s !! k =
    if decide (k = "id" ∨ k = "createdAt") then None else s !! k.
Proof.
  unfold removeMetadata. case_decide as Hk.
  - destruct Hk as [-> | ->].
    + rewrite lookup_delete_ne by done. apply lookup_delete_eq.
    + apply lookup_delete_eq.
  - rewrite !lookup_delete_ne by (intros <-; apply Hk; auto). reflexivity.
Qed.

Lemma removeMetadata_bare (s : object) : bare (removeMetadata s).
Proof.
  split; rewrite removeMetadata_lookup; case_decide; tauto.
Qed.

Lemma removeMetadata_dom (s : object) :
  dom (removeMetadata s) = dom s ∖ {["id"; "createdAt"]}.
Proof. unfold removeMetadata. rewrite !dom_delete_L. set_solver. Qed.

(** Stripping undoes stamping on any object that had neither metadata
    property to begin with. *)
Lemma removeMetadata_stamp (w : World) (i j : nat) (m : object) :
  bare m → removeMetadata (stamp w i j m) = m.
Proof.
  intros [Hid Hat]. apply map_eq. intros k.
  rewrite removeMetadata_lookup. case_decide as Hk.
  - destruct Hk as [-> | ->]; congruence.
  - apply stamp_records; tauto.
Qed.

Lemma valid_message_bare (m : object) : valid_message m = true → bare m.
Proof.
  unfold valid_message.
  destruct (m !! "role") as [[| | |r| |]|]; try discriminate.
  rewrite !andb_true_iff, !bool_decide_eq_true.
  intros [[[_ _] Hdom] _].
  split; apply not_elem_of_dom; intros Hin; apply Hdom in Hin; set_solver.
Qed.

(** C1.  For every valid Message [m], stripping the metadata from the
    enrichment of [m] gives back exactly [m].  Enrichment adds the two
    properties [id] and [createdAt] and leaves every other property as it
    was; stripping removes those two properties and no other. *)
Theorem removeMetadata_addMetadata (m : object) (w : World) :
  valid_message m = true →
  ∃ stored w',
    addMetadata m w = (Ok stored, w') ∧
    removeMetadata stored = m ∧
    dom stored = {["id"; "createdAt"]} ∪ dom m ∧
    records stored m ∧
    dom (removeMetadata stored) = dom stored ∖ {["id"; "createdAt"]}.
Proof.
  intros Hvalid. eexists _, _. split; [apply addMetadata_run |].
  split; [apply removeMetadata_stamp, valid_message_bare, Hvalid |].
  split; [apply stamp_dom |].
  split; [apply stamp_records | apply removeMetadata_dom].
Qed.

Lemma removeMetadata_addMetadata_witness :
  ∃ stored w',
    addMetadata (tool_message "call_42" (JStr "ok")) quiet_world = (Ok stored, w') ∧
    removeMetadata stored = tool_message "call_42" (JStr "ok") ∧
    dom stored = {["id"; "createdAt"]} ∪ dom (tool_message "call_42" (JStr "ok")) ∧
    records stored (tool_message "call_42" (JStr "ok")) ∧
    dom (removeMetadata stored) = dom stored ∖ {["id"; "createdAt"]}.
Proof.
  apply (removeMetadata_addMetadata (tool_message "call_42" (JStr "ok")) quiet_world).
  reflexivity.
Defined.

(** The hypothesis of validity is needed: an object that already has an
    [id] comes back without it. *)
Remark removeMetadata_drops_own_id :
  let m : object := <["id" := JStr "mine"]> hello in
  ∃ stored w',
    addMetadata m quiet_world = (Ok stored, w') ∧ removeMetadata stored = hello.
Proof.
  eexists _, _. split; [apply addMetadata_run |].
  apply map_eq. intros k. rewrite removeMetadata_lookup.
  case_decide as Hk.
  - destruct Hk as [-> | ->]; reflexivity.
  - rewrite stamp_records by tauto.
    rewrite lookup_insert_ne by (intros <-; apply Hk; auto). reflexivity.
Qed.

Lemma tally_inj (i j : nat) : tally i = tally j → i = j.
Proof.
  revert j. induction i as [|i IH]; intros [|j] Heq; try done.
  injection Heq as Heq. f_equal. by apply IH.
Qed.

Lemma quiet_world_fresh_ids : fresh_ids quiet_world.
Proof.
  intros i j Heq. cbn in Heq. apply tally_inj.
  by injection Heq.
Qed.

Lemma quiet_world_steady_clock : steady_clock quiet_world.
Proof. intros i j Hij. cbn. lia. Qed.

(** What the specification promises of two successive enrichments does not
    hold on every machine, even with a generator that never repeats
    itself.  Where the clock is set back between the two calls, the two
    identifiers differ and the second stamp is the earlier one; and a
    clock that passes into the year 10000 between the two calls, without
    being set back, gives a second stamp that sorts before the first. *)
Lemma successive_enrichments_not_ordered :
  valid_message hello = true ∧
  fresh_ids adverse_world ∧
  (∃ s1 w1 s2 w2,
     addMetadata hello adverse_world = (Ok s1, w1) ∧
     addMetadata hello w1 = (Ok s2, w2) ∧
     s1 !! "id" = Some (JStr "uuid-") ∧
     s2 !! "id" = Some (JStr "uuid-i") ∧
     s1 !! "createdAt" = Some (JStr "2024-11-02T10:34:56.789Z") ∧
     s2 !! "createdAt" = Some (JStr "2024-11-02T10:34:55.789Z") ∧
     String.leb "2024-11-02T10:34:56.789Z" "2024-11-02T10:34:55.789Z" = false) ∧
  ¬ successive_enrichments_ordered adverse_world hello ∧
  fresh_ids rollover_world ∧
  (clock rollover_world 0 ≤ clock rollover_world 1)%Z ∧
  (∃ s1 w1 s2 w2,
     addMetadata hello rollover_world = (Ok s1, w1) ∧
     addMetadata hello w1 = (Ok s2, w2) ∧
     s1 !! "createdAt" = Some (JStr "9999-12-31T23:59:59.999Z") ∧
     s2 !! "createdAt" = Some (JStr "+010000-01-01T00:00:00.000Z") ∧
     String.leb "9999-12-31T23:59:59.999Z" "+010000-01-01T00:00:00.000Z" = false) ∧
  ¬ successive_enrichments_ordered rollover_world hello.
Proof.
  assert (∀ w : World,
            String.leb (Iso.toISOString (clock w (clock_reads w)))
                       (Iso.toISOString (clock w (S (clock_reads w)))) = false →
            ¬ successive_enrichments_ordered w hello) as Hno.
  { intros w Hlt (s1 & w1 & s2 & w2 & id1 & id2 & at1 & at2 &
                  H1 & H2 & _ & _ & _ & Hat1 & Hat2 & Hleb).
    rewrite addMetadata_run in H1. injection H1 as <- <-.
    rewrite addMetadata_run_next in H2. injection H2 as <- <-.
    rewrite stamp_createdAt in Hat1, Hat2.
    apply Some_JStr_inj in Hat1, Hat2. rewrite <- Hat1, <- Hat2 in Hleb.
    congruence. }
  split; [reflexivity |].
  split; [exact quiet_world_fresh_ids |].
  split.
  { exists (stamp adverse_world 0 0 hello), (drawn 1 adverse_world),
      (stamp adverse_world 1 1 hello), (drawn 2 adverse_world).
    split; [apply addMetadata_run |]. split; [apply addMetadata_run_next |].
    rewrite !stamp_id, !stamp_createdAt. repeat split; reflexivity. }
  split; [apply Hno; vm_compute; reflexivity |].
  split; [exact quiet_world_fresh_ids |].
  split; [cbn; lia |].
  split.
  { exists (stamp rollover_world 0 0 hello), (drawn 1 rollover_world),
      (stamp rollover_world 1 1 hello), (drawn 2 rollover_world).
    split; [apply addMetadata_run |]. split; [apply addMetadata_run_next |].
    rewrite !stamp_createdAt. repeat split; reflexivity. }
  apply Hno. vm_compute. reflexivity.
Qed.

(** C9, as amended.  Two successive enrichments of a message always
    succeed; the stored messages carry the next two values of the
    identifier generator and the ISO renderings of the next two readings
    of the clock.  So their identifiers differ when the generator never
    returns the same value twice, whatever the clock does; and their
    creation stamps do not decrease as strings when the clock is not set
    back between the two calls and both readings fall in the years 0000 to
    9999, whatever the generator does.  Under both provisos together the
    two enrichments are as the specification promises. *)
Theorem addMetadata_twice (w : World) (m : object) :
  ∃ s1 w1 s2 w2 id1 id2 at1 at2,
    addMetadata m w = (Ok s1, w1) ∧ addMetadata m w1 = (Ok s2, w2) ∧
    s1 !! "id" = Some (JStr id1) ∧ s2 !! "id" = Some (JStr id2) ∧
    s1 !! "createdAt" = Some (JStr at1) ∧
    s2 !! "createdAt" = Some (JStr at2) ∧
    id1 = uuid_source w (uuid_calls w) ∧
    id2 = uuid_source w (S (uuid_calls w)) ∧
    at1 = Iso.toISOString (clock w (clock_reads w)) ∧
    at2 = Iso.toISOString (clock w (S (clock_reads w))) ∧
    (fresh_ids w → id1 ≠ id2) ∧
    ((clock w (clock_reads w) ≤ clock w (S (clock_reads w)))%Z →
     common_era (clock w (clock_reads w)) →
     common_era (clock w (S (clock_reads w))) →
     String.leb at1 at2 = true) ∧
    (fresh_ids w →
     (clock w (clock_reads w) ≤ clock w (S (clock_reads w)))%Z →
     common_era (clock w (clock_reads w)) →
     common_era (clock w (S (clock_reads w))) →
     successive_enrichments_ordered w m).
Proof.
  assert (fresh_ids w →
          uuid_source w (uuid_calls w) ≠ uuid_source w (S (uuid_calls w)))
    as Hids.
  { intros Hfresh Heq. apply Hfresh in Heq. lia. }
  assert ((clock w (clock_reads w) ≤ clock w (S (clock_reads w)))%Z →
          common_era (clock w (clock_reads w)) →
          common_era (clock w (S (clock_reads w))) →
          String.leb (Iso.toISOString (clock w (clock_reads w)))
                     (Iso.toISOString (clock w (S (clock_reads w)))) = true)
    as Hats.
  { intros Hle [Hlo _] [_ Hhi]. by apply toISOString_leb. }
  exists (stamp w (uuid_calls w) (clock_reads w) m), (drawn 1 w),
    (stamp w (S (uuid_calls w)) (S (clock_reads w)) m), (drawn 2 w),
    (uuid_source w (uuid_calls w)), (uuid_source w (S (uuid_calls w))),
    (Iso.toISOString (clock w (clock_reads w))),
    (Iso.toISOString (clock w (S (clock_reads w)))).
  split; [apply addMetadata_run |]. split; [apply addMetadata_run_next |].
  split; [apply stamp_id |]. split; [apply stamp_id |].
  split; [apply stamp_createdAt |]. split; [apply stamp_createdAt |].
  do 4 (split; [reflexivity |]).
  split; [exact Hids |]. split; [exact Hats |].
  intros Hfresh Hle Hera1 Hera2.
  exists (stamp w (uuid_calls w) (clock_reads w) m), (drawn 1 w),
    (stamp w (S (uuid_calls w)) (S (clock_reads w)) m), (drawn 2 w),
    (uuid_source w (uuid_calls w)), (uuid_source w (S (uuid_calls w))),
    (Iso.toISOString (clock w (clock_reads w))),
    (Iso.toISOString (clock w (S (clock_reads w)))).
  split; [apply addMetadata_run |]. split; [apply addMetadata_run_next |].
  split; [apply stamp_id |]. split; [apply stamp_id |].
  split; [by apply Hids |].
  split; [apply stamp_createdAt |]. split; [apply stamp_createdAt |].
  by apply Hats.
Qed.

(** The amended claim at work.  On the quiet machine both provisos hold
    and the two enrichments of [hello] are as promised; on the machine
    whose clock is set back the generator's proviso still holds, and the
    two identifiers still differ. *)
Lemma addMetadata_twice_witness :
  successive_enrichments_ordered quiet_world hello ∧
  ∃ s1 w1 s2 w2 id1 id2,
    addMetadata hello adverse_world = (Ok s1, w1) ∧
    addMetadata hello w1 = (Ok s2, w2) ∧
    s1 !! "id" = Some (JStr id1) ∧ s2 !! "id" = Some (JStr id2) ∧
    id1 ≠ id2.
Proof.
  split.
  - destruct (addMetadata_twice quiet_world hello)
      as (s1 & w1 & s2 & w2 & id1 & id2 & at1 & at2 & _ & _ & _ & _ & _ & _ &
          _ & _ & _ & _ & _ & _ & Hall).
    apply Hall.
    + exact quiet_world_fresh_ids.
    + cbn. lia.
    + unfold common_era. cbn. lia.
    + unfold common_era. cbn. lia.
  - destruct (addMetadata_twice adverse_world hello)
      as (s1 & w1 & s2 & w2 & id1 & id2 & at1 & at2 & H1 & H2 & Hid1 & Hid2 &
          _ & _ & _ & _ & _ & _ & Hne & _).
    exists s1, w1, s2, w2, id1, id2.
    repeat (split; [assumption |]). apply Hne. exact quiet_world_fresh_ids.
Defined.

End Metadata.

(** ** The store: appending and reading back *)

Section Store.
Import Memory Spec.

Lemma bind_run {A B} (c : M A) (k : A → M B) (w : World) :
  (c ≫= k) w =
    match c w with
    | (Ok a, w') => k a w'
    | (Err e, w') => (Err e, w')
    end.
Proof. reflexivity. Qed.

Lemma ret_run {A} (a : A) (w : World) : (mret a : M A) w = (Ok a, w).
Proof. reflexivity. Qed.

Lemma run_eta {A} (c : M A) (w : World) (a : A) :
  fst (c w) = Ok a → c w = (Ok a, snd (c w)).
Proof. destruct (c w) as [r w']. cbn. by intros ->. Qed.

Lemma drawn_drawn (n k : nat) (w : World) :
  drawn n (drawn k w) = drawn (n + k) w.
Proof. unfold drawn. simpl. f_equal; lia. Qed.

(** Stamping looks at the two generators of the world only. *)
Lemma stamps_ext (w w' : World) (i j : nat) (msgs : list object) :
  uuid_source w' = uuid_source w → clock w' = clock w →
  stamps w' i j msgs = stamps w i j msgs.
Proof.
  intros Hid Hclock. revert i j.
  induction msgs as [|m msgs IH]; intros i j; simpl; [done |].
  unfold stamp. by rewrite IH, Hid, Hclock.
Qed.

Lemma stamps_records (w : World) (i j : nat) (msgs : list object) :
  Forall2 records (stamps w i j msgs) msgs.
Proof.
  revert i j. induction msgs as [|m msgs IH]; intros i j; simpl; constructor.
  - apply stamp_records.
  - apply IH.
Qed.

Lemma stamps_metadata (w : World) (i j : nat) (msgs : list object) :
  Forall (λ s, is_Some (s !! "id") ∧ is_Some (s !! "createdAt")) (stamps w i j msgs).
Proof.
  revert i j. induction msgs as [|m msgs IH]; intros i j; simpl; constructor.
  - by rewrite stamp_id, stamp_createdAt.
  - apply IH.
Qed.

Lemma removeMetadata_stamps (w : World) (i j : nat) (msgs : list object) :
  Forall bare msgs → map removeMetadata (stamps w i j msgs) = msgs.
Proof.
  intros Hbare. revert i j.
  induction Hbare as [|m msgs Hm _ IH]; intros i j; simpl; [done |].
  by rewrite removeMetadata_stamp, IH.
Qed.

(** [messages.map(addMetadata)]: one identifier and one clock reading per
    message, in the order of the array; it cannot fail. *)
Lemma mapM_addMetadata_run (msgs : list object) (w : World) :
  mapM addMetadata msgs w =
    (Ok (stamps w (uuid_calls w) (clock_reads w) msgs), drawn (length msgs) w).
Proof.
  revert w. induction msgs as [|m msgs IH]; intros w.
  - destruct w; reflexivity.
  - cbn [mapM]. rewrite bind_run, addMetadata_run, bind_run, IH, ret_run.
    rewrite drawn_drawn, Nat.add_1_r.
    by rewrite (stamps_ext w (drawn 1 w)).
Qed.

(** What one [addMessages] does to the world, by outcome. *)
Lemma addMessages_cases (msgs : list object) (w : World) :
  let new := stamps w (uuid_calls w) (clock_reads w) msgs in
  let '(outcome, w') := addMessages msgs w in
  uuid_source w' = uuid_source w ∧ clock w' = clock w ∧
  io_fault w' = io_fault w ∧
  match outcome with
  | Ok _ =>
      db_json w' = Some {| messages := messages (store w) ++ new |} ∧
      uuid_calls w' = length msgs + uuid_calls w ∧
      clock_reads w' = length msgs + clock_reads w ∧
      io_ops w' = 2 + io_ops w
  | Err e => e = PersistenceError ∧ db_json w' = db_json w
  end.
Proof.
  unfold addMessages, getDb, read_file, store.
  rewrite !bind_run.
  destruct (io_fault w (io_ops w)) eqn:Hread; [done |].
  rewrite ret_run, bind_run, mapM_addMetadata_run.
  destruct (db_json w) as [d|] eqn:Hfile;
    cbn [push]; rewrite bind_run, ?ret_run; unfold write, data, write_file;
    rewrite bind_run; cbn -[stamps];
    destruct (io_fault w (S (io_ops w))); cbn -[stamps];
    by rewrite ?Hfile, ?(stamps_ext w (next_io w)).
Qed.

(** A successful [addMessages] extends the document by the stamped
    messages and by nothing else. *)
Lemma addMessages_store (msgs : list object) (w w' : World) :
  addMessages msgs w = (Ok tt, w') →
  messages (store w') =
    messages (store w) ++ stamps w (uuid_calls w) (clock_reads w) msgs.
Proof.
  intros Hrun. pose proof (addMessages_cases msgs w) as Hcases.
  rewrite Hrun in Hcases. cbv zeta in Hcases.
  destruct Hcases as (_ & _ & _ & Hfile & _).
  unfold store at 1. by rewrite Hfile.
Qed.

Lemma addMessages_history (msgs : list object) (w w' : World) :
  Forall bare msgs →
  addMessages msgs w = (Ok tt, w') →
  history w' = history w ++ msgs.
Proof.
  intros Hbare Hrun. unfold history.
  rewrite (addMessages_store msgs w w' Hrun), map_app.
  by rewrite removeMetadata_stamps.
Qed.

(** [getMessages] changes nothing but the count of file accesses. *)
Lemma getMessages_run (w : World) :
  io_fault w (io_ops w) = false →
  getMessages w = (Ok (history w), next_io w).
Proof.
  intros Hread. unfold getMessages, getDb, read_file, history, store.
  rewrite !bind_run, Hread, ret_run. unfold data.
  rewrite bind_run, ret_run. cbn. by destruct (db_json w).
Qed.

(** A run of successful appends adds the given messages to the history,
    call after call. *)
Lemma appends_history (calls : list (list object)) (w0 w : World) (units : list unit) :
  Forall (Forall bare) calls →
  mapM addMessages calls w0 = (Ok units, w) →
  history w = history w0 ++ concat calls.
Proof.
  intros Hbare. revert w0 units.
  induction Hbare as [|msgs calls Hmsgs _ IH]; intros w0 units Hrun.
  - cbn in Hrun. injection Hrun as _ <-. by rewrite app_nil_r.
  - cbn [mapM] in Hrun. rewrite bind_run in Hrun.
    destruct (addMessages msgs w0) as [[[]|e] w1] eqn:Hfirst; [| done].
    rewrite bind_run in Hrun.
    destruct (mapM addMessages calls w1) as [[rest|e] w2] eqn:Hrest; [| done].
    rewrite ret_run in Hrun. injection Hrun as _ <-.
    rewrite (IH w1 rest Hrest), (addMessages_history msgs w0 w1 Hmsgs Hfirst).
    cbn [concat]. by rewrite app_assoc.
Qed.

(** C2.  Whatever the store held before, once [addMessages [m1; m2]] has
    returned, [getMessages] returns the previous history followed by [m1]
    and then [m2]; the two stored messages carry the results of two
    separate calls of the identifier generator and of two separate
    readings of the clock. *)
Theorem addMessages_then_getMessages (w w' : World) (m1 m2 : object) :
  valid_message m1 = true → valid_message m2 = true →
  addMessages [m1; m2] w = (Ok tt, w') →
  io_fault w' (io_ops w') = false →
  (io_fault w (io_ops w) = false → fst (getMessages w) = Ok (history w)) ∧
  fst (getMessages w') = Ok (history w ++ [m1; m2]) ∧
  ∃ s1 s2,
    messages (store w') = messages (store w) ++ [s1; s2] ∧
    s1 !! "id" = Some (JStr (uuid_source w (uuid_calls w))) ∧
    s2 !! "id" = Some (JStr (uuid_source w (S (uuid_calls w)))) ∧
    s1 !! "createdAt" = Some (JStr (Iso.toISOString (clock w (clock_reads w)))) ∧
    s2 !! "createdAt" = Some (JStr (Iso.toISOString (clock w (S (clock_reads w))))) ∧
    uuid_calls w' = 2 + uuid_calls w ∧
    clock_reads w' = 2 + clock_reads w.
Proof.
  intros Hm1 Hm2 Hrun Hread.
  assert (Forall bare [m1; m2]) as Hbare
    by (repeat constructor; by apply valid_message_bare).
  split; [intros Hread0; by rewrite getMessages_run |].
  split.
  - rewrite getMessages_run by done. cbn [fst].
    by rewrite (addMessages_history _ _ _ Hbare Hrun).
  - eexists _, _. split; [apply (addMessages_store _ _ _ Hrun) |].
    pose proof (addMessages_cases [m1; m2] w) as Hcases.
    rewrite Hrun in Hcases. cbv zeta in Hcases.
    destruct Hcases as (_ & _ & _ & _ & Hids & Hclock & _).
    rewrite !stamp_id, !stamp_createdAt. done.
Qed.

Lemma addMessages_then_getMessages_witness :
  (io_fault quiet_world (io_ops quiet_world) = false →
   fst (getMessages quiet_world) = Ok (history quiet_world)) ∧
  fst (getMessages after_two_messages) = Ok (history quiet_world ++ [hello; hi_there]) ∧
  ∃ s1 s2,
    messages (store after_two_messages) = messages (store quiet_world) ++ [s1; s2] ∧
    s1 !! "id" = Some (JStr (uuid_source quiet_world (uuid_calls quiet_world))) ∧
    s2 !! "id" = Some (JStr (uuid_source quiet_world (S (uuid_calls quiet_world)))) ∧
    s1 !! "createdAt" =
      Some (JStr (Iso.toISOString (clock quiet_world (clock_reads quiet_world)))) ∧
    s2 !! "createdAt" =
      Some (JStr (Iso.toISOString (clock quiet_world (S (clock_reads quiet_world))))) ∧
    uuid_calls after_two_messages = 2 + uuid_calls quiet_world ∧
    clock_reads after_two_messages = 2 + clock_reads quiet_world.
Proof.
  apply (addMessages_then_getMessages quiet_world after_two_messages hello hi_there);
    try apply run_eta; reflexivity.
Defined.

(** The same run with its values written out. *)
Example addMessages_then_getMessages_values :
  fst (addMessages [hello; hi_there] quiet_world) = Ok tt ∧
  (map (λ s : object, (s !! "id", s !! "createdAt")) ∘ messages)
    <$> db_json after_two_messages =
    Some [(Some (JStr "uuid-"), Some (JStr "2024-11-02T10:34:56.789Z"));
          (Some (JStr "uuid-i"), Some (JStr "2024-11-02T10:34:56.790Z"))] ∧
  fst (getMessages after_two_messages) =
    Ok [hello; hi_there].
Proof. repeat split; reflexivity. Qed.

(** C3.  [saveToolResponse toolCallId toolResponse], when it returns,
    has appended exactly one message, and the last stored message has the
    role tool, the given [tool_call_id] and the given content. *)
Theorem saveToolResponse_last_message
    (w w' : World) (toolCallId : string) (toolResponse : json) :
  saveToolResponse toolCallId toolResponse w = (Ok tt, w') →
  ∃ s,
    messages (store w') = messages (store w) ++ [s] ∧
    length (messages (store w')) = S (length (messages (store w))) ∧
    list.last (messages (store w')) = Some s ∧
    s !! "role" = Some (JStr "tool") ∧
    s !! "tool_call_id" = Some (JStr toolCallId) ∧
    s !! "content" = Some toolResponse ∧
    removeMetadata s = tool_message toolCallId toolResponse ∧
    (io_fault w' (io_ops w') = false →
     fst (getMessages w') = Ok (history w ++ [tool_message toolCallId toolResponse])).
Proof.
  unfold saveToolResponse. intros Hrun.
  pose proof (addMessages_store _ _ _ Hrun) as Hstore. cbn [stamps] in Hstore.
  assert (bare (tool_message toolCallId toolResponse)) as Hbare by done.
  eexists. split; [exact Hstore |].
  split; [rewrite Hstore, length_app; cbn; lia |].
  split; [rewrite Hstore; apply last_snoc |].
  rewrite !stamp_records by done.
  split; [done |]. split; [done |]. split; [done |].
  split; [by apply removeMetadata_stamp |].
  intros Hread. rewrite getMessages_run by done. cbn [fst].
  f_equal. apply (addMessages_history [_] w w'); [| done].
  constructor; [done | constructor].
Qed.

Lemma saveToolResponse_last_message_witness :
  ∃ s,
    messages (store after_tool_response) = messages (store quiet_world) ++ [s] ∧
    length (messages (store after_tool_response)) =
      S (length (messages (store quiet_world))) ∧
    list.last (messages (store after_tool_response)) = Some s ∧
    s !! "role" = Some (JStr "tool") ∧
    s !! "tool_call_id" = Some (JStr "call_42") ∧
    s !! "content" = Some (JStr "ok") ∧
    removeMetadata s = tool_message "call_42" (JStr "ok") ∧
    (io_fault after_tool_response (io_ops after_tool_response) = false →
     fst (getMessages after_tool_response) =
       Ok (history quiet_world ++ [tool_message "call_42" (JStr "ok")])).
Proof.
  apply (saveToolResponse_last_message quiet_world after_tool_response
           "call_42" (JStr "ok")).
  apply (run_eta (saveToolResponse "call_42" (JStr "ok"))).
  reflexivity.
Defined.

(** C7.  On an empty store [getMessages] returns the empty sequence.  On
    a store holding N messages it returns N messages, the stored ones in
    their storage order, each without [id] and [createdAt]; when the
    store was filled from an empty one by successful appends of valid
    messages, these are exactly the appended messages in the order they
    were given. *)
Theorem getMessages_returns_history (w : World) :
  io_fault w (io_ops w) = false →
  fst (getMessages w) = Ok (history w) ∧
  (messages (store w) = [] → history w = []) ∧
  length (history w) = length (messages (store w)) ∧
  (∀ i : nat, history w !! i = removeMetadata <$> messages (store w) !! i) ∧
  Forall bare (history w) ∧
  (∀ (calls : list (list object)) (w0 : World) (units : list unit),
     messages (store w0) = [] →
     Forall (Forall (λ m, valid_message m = true)) calls →
     mapM addMessages calls w0 = (Ok units, w) →
     history w = concat calls).
Proof.
  intros Hread.
  split; [by rewrite getMessages_run |].
  split; [unfold history; by intros -> |].
  split; [unfold history; apply length_map |].
  split; [intros i; unfold history; apply list_lookup_fmap |].
  split.
  - unfold history. apply Forall_fmap, Forall_true. intros s.
    apply removeMetadata_bare.
  - intros calls w0 units Hempty Hvalid Hrun.
    rewrite (appends_history calls w0 w units); [| | done].
    + unfold history at 1. by rewrite Hempty.
    + eapply Forall_impl; [exact Hvalid |]. intros msgs Hmsgs.
      eapply Forall_impl; [exact Hmsgs |]. apply valid_message_bare.
Qed.

Lemma getMessages_returns_history_witness :
  fst (getMessages after_three_appends) = Ok (history after_three_appends) ∧
  (messages (store after_three_appends) = [] → history after_three_appends = []) ∧
  length (history after_three_appends) = length (messages (store after_three_appends)) ∧
  (∀ i : nat,
     history after_three_appends !! i =
       removeMetadata <$> messages (store after_three_appends) !! i) ∧
  Forall bare (history after_three_appends) ∧
  (∀ (calls : list (list object)) (w0 : World) (units : list unit),
     messages (store w0) = [] →
     Forall (Forall (λ m, valid_message m = true)) calls →
     mapM addMessages calls w0 = (Ok units, after_three_appends) →
     history after_three_appends = concat calls).
Proof.
  apply (getMessages_returns_history after_three_appends).
  reflexivity.
Defined.

(** The same run with its values written out: three appends, one of them
    empty, and the three messages read back in order. *)
Example getMessages_after_three_appends :
  fst (mapM addMessages [[hello; hi_there]; []; [hello]] quiet_world) = Ok [(); (); ()] ∧
  fst (getMessages after_three_appends) =
    Ok [hello; hi_there; hello].
Proof. repeat split; reflexivity. Qed.

(** The empty case at the two empty stores there are: no file yet, and a
    file whose document has no messages. *)
Example getMessages_fresh : fst (getMessages quiet_world) = Ok [].
Proof. reflexivity. Qed.

Example getMessages_empty_file : fst (getMessages empty_file_world) = Ok [].
Proof. reflexivity. Qed.

(** C8.  [addMessages] either returns, and then db.json holds the
    previous document followed by one stored message for each given
    message, in order, each carrying the properties of the message it was
    made from; or it fails with a persistence error, and then db.json is
    exactly what it was before the call. *)
Theorem addMessages_all_or_nothing (msgs : list object) (w : World) :
  match addMessages msgs w with
  | (Ok _, w') =>
      ∃ new,
        db_json w' = Some {| messages := messages (store w) ++ new |} ∧
        Forall2 records new msgs ∧
        Forall (λ s, is_Some (s !! "id") ∧ is_Some (s !! "createdAt")) new
  | (Err e, w') => e = PersistenceError ∧ db_json w' = db_json w
  end.
Proof.
  pose proof (addMessages_cases msgs w) as Hcases.
  destruct (addMessages msgs w) as [[[]|e] w']; cbv zeta in Hcases.
  - destruct Hcases as (_ & _ & _ & Hfile & _).
    eexists. split; [exact Hfile |]. split; [apply stamps_records |].
    apply stamps_metadata.
  - by destruct Hcases as (_ & _ & _ & ? & ?).
Qed.

(** Both outcomes occur: on the quiet machine the append is recorded,
    and where the write fails the file stays absent. *)
Example addMessages_recorded :
  fst (addMessages [hello] quiet_world) = Ok tt ∧
  (map removeMetadata ∘ messages) <$> db_json (snd (addMessages [hello] quiet_world)) =
    Some [hello].
Proof. repeat split; reflexivity. Qed.

Example addMessages_failed_write :
  fst (addMessages [hello] failing_disk_world) = Err PersistenceError ∧
  db_json (snd (addMessages [hello] failing_disk_world)) = None.
Proof. repeat split; reflexivity. Qed.

(** The failed append nevertheless stays in the in-memory default
    document, which a later [getDb] of the same process hands out again
    while there is no file: the message is then read back, and the next
    successful append writes it to db.json. *)
Remark failed_first_append_is_kept_in_memory :
  let w1 := snd (addMessages [hello] failing_disk_world) in
  let w2 := snd (addMessages [hi_there] w1) in
  fst (addMessages [hello] failing_disk_world) = Err PersistenceError ∧
  db_json w1 = None ∧
  fst (getMessages w1) = Ok [hello] ∧
  fst (addMessages [hi_there] w1) = Ok tt ∧
  (map removeMetadata ∘ messages) <$> db_json w2 = Some [hello; hi_there] ∧
  fst (getMessages w2) = Ok [hello; hi_there].
Proof. repeat split; reflexivity. Qed.

End Store.

(** ** The store: every outcome of an append, and what reads leave alone *)

Section StoreOutcomes.
Import Memory Spec.

(** [addMessages], outcome by outcome: a failed read ends the call before
    anything else happens; otherwise one identifier and one reading are
    taken per message, the default document is extended when it is the one
    in use, and the write decides between success and failure. *)
Lemma addMessages_outcomes (msgs : list object) (w : World) :
  let new := stamps w (uuid_calls w) (clock_reads w) msgs in
  let '(outcome, w') := addMessages msgs w in
  uuid_source w' = uuid_source w ∧ clock w' = clock w ∧ io_fault w' = io_fault w ∧
  if io_fault w (io_ops w)
  then outcome = Err PersistenceError ∧ w' = next_io w
  else
    uuid_calls w' = length msgs + uuid_calls w ∧
    clock_reads w' = length msgs + clock_reads w ∧
    io_ops w' = 2 + io_ops w ∧
    defaultData w' =
      match db_json w with
      | Some _ => defaultData w
      | None => {| messages := messages (defaultData w) ++ new |}
      end ∧
    if io_fault w (S (io_ops w))
    then outcome = Err PersistenceError ∧ db_json w' = db_json w
    else outcome = Ok tt ∧
         db_json w' = Some {| messages := messages (store w) ++ new |}.
Proof.
  unfold addMessages, getDb, read_file, store.
  rewrite !bind_run.
  destruct (io_fault w (io_ops w)) eqn:Hread; [done |].
  rewrite ret_run, bind_run, mapM_addMetadata_run.
  destruct (db_json w) as [d|] eqn:Hfile;
    cbn [push]; rewrite bind_run, ?ret_run; unfold write, data, write_file;
    rewrite bind_run; cbn -[stamps];
    destruct (io_fault w (S (io_ops w))); cbn -[stamps];
    by rewrite ?Hfile, ?(stamps_ext w (next_io w)).
Qed.

Lemma stamps_length (w : World) (i j : nat) (msgs : list object) :
  length (stamps w i j msgs) = length msgs.
Proof.
  revert i j. induction msgs as [|m msgs IH]; intros i j; simpl; [done |].
  by rewrite IH.
Qed.

Lemma stamps_lookup (w : World) (i j k : nat) (msgs : list object) :
  stamps w i j msgs !! k = stamp w (i + k) (j + k) <$> msgs !! k.
Proof.
  revert i j k. induction msgs as [|m msgs IH]; intros i j [|k]; simpl; try done.
  - by rewrite !Nat.add_0_r.
  - rewrite IH. by rewrite !Nat.add_succ_r.
Qed.

Lemma stamps_app (w : World) (i j : nat) (a b : list object) :
  stamps w i j (a ++ b) =
    stamps w i j a ++ stamps w (length a + i) (length a + j) b.
Proof.
  revert i j. induction a as [|m a IH]; intros i j; simpl; [done |].
  rewrite IH. by rewrite !Nat.add_succ_r.
Qed.

(** The document in use after an append is the one before it, followed by
    the stamped messages or by nothing. *)
Lemma addMessages_store_grows (msgs : list object) (w : World) :
  ∃ added,
    messages (store (snd (addMessages msgs w))) = messages (store w) ++ added ∧
    (added = [] ∨ added = stamps w (uuid_calls w) (clock_reads w) msgs) ∧
    (added = [] → (uuid_calls w ≤ uuid_calls (snd (addMessages msgs w)))%nat ∧
                  (clock_reads w ≤ clock_reads (snd (addMessages msgs w)))%nat) ∧
    (added ≠ [] → uuid_calls (snd (addMessages msgs w)) = length msgs + uuid_calls w ∧
                  clock_reads (snd (addMessages msgs w)) = length msgs + clock_reads w).
Proof.
  pose proof (addMessages_outcomes msgs w) as Hout. cbv zeta in Hout.
  destruct (addMessages msgs w) as [outcome w']. cbn [snd].
  destruct Hout as (_ & _ & _ & Hout).
  destruct (io_fault w (io_ops w)).
  { destruct Hout as [_ ->]. exists []. rewrite app_nil_r.
    repeat split; intros; cbn; try done; auto. }
  destruct Hout as (Hids & Hclock & _ & Hdefault & Hout).
  destruct (io_fault w (S (io_ops w))).
  - destruct Hout as [_ Hfile]. unfold store. rewrite Hfile, Hdefault.
    destruct (db_json w) as [d|].
    + exists []. rewrite app_nil_r.
      repeat split; intros; try done; auto; lia.
    + eexists. split; [reflexivity |].
      repeat split; intros; try done; auto; lia.
  - destruct Hout as [_ Hfile]. unfold store at 1. rewrite Hfile.
    eexists. split; [reflexivity |].
    repeat split; intros; try done; auto; lia.
Qed.

Lemma addMessages_ok_faults (msgs : list object) (w : World) :
  fst (addMessages msgs w) = Ok tt →
  io_fault w (io_ops w) = false ∧ io_fault w (S (io_ops w)) = false.
Proof.
  pose proof (addMessages_outcomes msgs w) as Hout. cbv zeta in Hout.
  destruct (addMessages msgs w) as [outcome w']. cbn [fst].
  destruct Hout as (_ & _ & _ & Hout). intros ->.
  destruct (io_fault w (io_ops w)); [by destruct Hout |].
  destruct Hout as (_ & _ & _ & _ & Hout).
  destruct (io_fault w (S (io_ops w))); [by destruct Hout | done].
Qed.

(** X1.  Enrichment overwrites: whatever the object held under [id] and
    [createdAt], the enriched object holds the fresh identifier and the
    current stamp there, and stripping it gives what stripping the object
    itself gives. *)
Theorem addMetadata_overwrites (m : object) (w : World) :
  ∃ stored w',
    addMetadata m w = (Ok stored, w') ∧
    stored !! "id" = Some (JStr (uuid_source w (uuid_calls w))) ∧
    stored !! "createdAt" = Some (JStr (Iso.toISOString (clock w (clock_reads w)))) ∧
    removeMetadata stored = removeMetadata m ∧
    uuid_calls w' = S (uuid_calls w) ∧ clock_reads w' = S (clock_reads w).
Proof.
  eexists _, _. split; [apply addMetadata_run |].
  split; [apply stamp_id |]. split; [apply stamp_createdAt |].
  split; [| done].
  apply map_eq. intros k. rewrite !removeMetadata_lookup.
  case_decide as Hk; [done |]. apply stamp_records; tauto.
Qed.

(** X2.  Stripping changes an object exactly when the object has one of the
    two metadata properties, and stripping twice is stripping once. *)
Theorem removeMetadata_fixpoint (s : object) :
  (removeMetadata s = s ↔ bare s) ∧
  removeMetadata (removeMetadata s) = removeMetadata s.
Proof.
  assert (∀ t : object, bare t → removeMetadata t = t) as Hid.
  { intros t [Hid Hat]. apply map_eq. intros k.
    rewrite removeMetadata_lookup. case_decide as Hk; [| done].
    destruct Hk as [-> | ->]; congruence. }
  split.
  - split; [| apply Hid]. intros <-. apply removeMetadata_bare.
  - apply Hid, removeMetadata_bare.
Qed.

(** X4.  A successful [addMessages] of any number of messages lengthens the
    document by that number; the [k]-th given message is stored behind the
    previous ones with the [k]-th of the identifiers and readings taken
    during the call, and exactly one identifier and one reading are taken
    per message. *)
Theorem addMessages_any_length (msgs : list object) (w w' : World) :
  addMessages msgs w = (Ok tt, w') →
  length (messages (store w')) = length (messages (store w)) + length msgs ∧
  (∀ (k : nat) (m : object),
     msgs !! k = Some m →
     messages (store w') !! (length (messages (store w)) + k) =
       Some (stamp w (uuid_calls w + k) (clock_reads w + k) m)) ∧
  (∀ (k : nat) (s : object),
     messages (store w) !! k = Some s → messages (store w') !! k = Some s) ∧
  uuid_calls w' = length msgs + uuid_calls w ∧
  clock_reads w' = length msgs + clock_reads w.
Proof.
  intros Hrun. pose proof (addMessages_store msgs w w' Hrun) as Hstore.
  pose proof (addMessages_cases msgs w) as Hcases.
  rewrite Hrun in Hcases. cbv zeta in Hcases.
  destruct Hcases as (_ & _ & _ & _ & Hids & Hclock & _).
  rewrite Hstore. repeat split; try done.
  - by rewrite length_app, stamps_length.
  - intros k m Hk. rewrite lookup_app_r by lia.
    replace (length (messages (store w)) + k - length (messages (store w))) with k by lia.
    by rewrite stamps_lookup, Hk.
  - intros k s Hk. by apply lookup_app_l_Some.
Qed.

Lemma addMessages_any_length_witness :
  length (messages (store after_two_messages)) =
    length (messages (store quiet_world)) + length [hello; hi_there] ∧
  (∀ (k : nat) (m : object),
     [hello; hi_there] !! k = Some m →
     messages (store after_two_messages) !! (length (messages (store quiet_world)) + k) =
       Some (stamp quiet_world (uuid_calls quiet_world + k)
               (clock_reads quiet_world + k) m)) ∧
  (∀ (k : nat) (s : object),
     messages (store quiet_world) !! k = Some s →
     messages (store after_two_messages) !! k = Some s) ∧
  uuid_calls after_two_messages = length [hello; hi_there] + uuid_calls quiet_world ∧
  clock_reads after_two_messages = length [hello; hi_there] + clock_reads quiet_world.
Proof.
  apply (addMessages_any_length [hello; hi_there] quiet_world after_two_messages).
  apply run_eta. reflexivity.
Defined.

(** X5.  [addMessages] of the empty list, when it returns, leaves the
    messages as they were and takes no identifier and no reading, but it
    does write: afterwards db.json exists and holds the document that was
    in use. *)
Theorem addMessages_nil (w w' : World) :
  addMessages [] w = (Ok tt, w') →
  messages (store w') = messages (store w) ∧
  history w' = history w ∧
  uuid_calls w' = uuid_calls w ∧
  clock_reads w' = clock_reads w ∧
  messages <$> db_json w' = Some (messages (store w)).
Proof.
  intros Hrun. pose proof (addMessages_cases [] w) as Hcases.
  rewrite Hrun in Hcases. cbv zeta in Hcases.
  destruct Hcases as (_ & _ & _ & Hfile & Hids & Hclock & _).
  cbn [stamps] in Hfile. rewrite app_nil_r in Hfile.
  unfold history, store at 1 3. rewrite Hfile. done.
Qed.

Lemma addMessages_nil_witness :
  messages (store (snd (addMessages [] quiet_world))) = messages (store quiet_world) ∧
  history (snd (addMessages [] quiet_world)) = history quiet_world ∧
  uuid_calls (snd (addMessages [] quiet_world)) = uuid_calls quiet_world ∧
  clock_reads (snd (addMessages [] quiet_world)) = clock_reads quiet_world ∧
  messages <$> db_json (snd (addMessages [] quiet_world)) =
    Some (messages (store quiet_world)).
Proof.
  apply (addMessages_nil quiet_world (snd (addMessages [] quiet_world))).
  apply run_eta. reflexivity.
Defined.

(** X6.  [getMessages] is a pure read: whether it returns or throws, the
    file, the default document and the two generators are as before, and
    only the access to db.json is counted.  It returns the history exactly
    when the read succeeds and throws a persistence error otherwise. *)
Theorem getMessages_changes_nothing (w : World) :
  match getMessages w with
  | (outcome, w') =>
      db_json w' = db_json w ∧ defaultData w' = defaultData w ∧
      uuid_calls w' = uuid_calls w ∧ clock_reads w' = clock_reads w ∧
      io_ops w' = S (io_ops w) ∧ history w' = history w ∧
      match outcome with
      | Ok h => h = history w ∧ io_fault w (io_ops w) = false
      | Err e => e = PersistenceError ∧ io_fault w (io_ops w) = true
      end
  end.
Proof.
  unfold getMessages, getDb, read_file, history, store.
  rewrite !bind_run.
  destruct (io_fault w (io_ops w)) eqn:Hread; [done |].
  rewrite ret_run. unfold data. rewrite bind_run, ret_run. cbn.
  by destruct (db_json w).
Qed.

(** X7.  When the read of db.json fails, [addMessages] throws before it
    enriches anything: no identifier and no reading is taken, and the file
    and the default document stay as they were. *)
Theorem addMessages_failed_read (msgs : list object) (w : World) :
  io_fault w (io_ops w) = true →
  fst (addMessages msgs w) = Err PersistenceError ∧
  uuid_calls (snd (addMessages msgs w)) = uuid_calls w ∧
  clock_reads (snd (addMessages msgs w)) = clock_reads w ∧
  db_json (snd (addMessages msgs w)) = db_json w ∧
  defaultData (snd (addMessages msgs w)) = defaultData w.
Proof.
  intros Hread. pose proof (addMessages_outcomes msgs w) as Hout.
  cbv zeta in Hout. destruct (addMessages msgs w) as [outcome w'].
  rewrite Hread in Hout. by destruct Hout as (_ & _ & _ & -> & ->).
Qed.

Lemma addMessages_failed_read_witness :
  fst (addMessages [hello] unreadable_world) = Err PersistenceError ∧
  uuid_calls (snd (addMessages [hello] unreadable_world)) = uuid_calls unreadable_world ∧
  clock_reads (snd (addMessages [hello] unreadable_world)) = clock_reads unreadable_world ∧
  db_json (snd (addMessages [hello] unreadable_world)) = db_json unreadable_world ∧
  defaultData (snd (addMessages [hello] unreadable_world)) = defaultData unreadable_world.
Proof. apply (addMessages_failed_read [hello] unreadable_world). reflexivity. Defined.

(** X8.  When db.json exists and the write fails, [addMessages] throws and
    the store is as before, on disk and as later reads see it; the
    identifiers and readings of the enrichment have been taken all the
    same. *)
Theorem addMessages_failed_write_with_file (msgs : list object) (w : World) (d : Data) :
  db_json w = Some d →
  io_fault w (io_ops w) = false →
  io_fault w (S (io_ops w)) = true →
  fst (addMessages msgs w) = Err PersistenceError ∧
  db_json (snd (addMessages msgs w)) = Some d ∧
  store (snd (addMessages msgs w)) = store w ∧
  history (snd (addMessages msgs w)) = history w ∧
  uuid_calls (snd (addMessages msgs w)) = length msgs + uuid_calls w ∧
  clock_reads (snd (addMessages msgs w)) = length msgs + clock_reads w.
Proof.
  intros Hfile Hread Hwrite. pose proof (addMessages_outcomes msgs w) as Hout.
  cbv zeta in Hout. destruct (addMessages msgs w) as [outcome w'].
  rewrite Hread, Hwrite in Hout.
  destruct Hout as (_ & _ & _ & Hids & Hclock & _ & _ & -> & Hsame).
  cbn [fst snd]. unfold history, store. rewrite Hsame, Hfile. done.
Qed.

Lemma addMessages_failed_write_with_file_witness :
  fst (addMessages [hello] failing_disk_with_file_world) = Err PersistenceError ∧
  db_json (snd (addMessages [hello] failing_disk_with_file_world)) =
    Some {| messages := [] |} ∧
  store (snd (addMessages [hello] failing_disk_with_file_world)) =
    store failing_disk_with_file_world ∧
  history (snd (addMessages [hello] failing_disk_with_file_world)) =
    history failing_disk_with_file_world ∧
  uuid_calls (snd (addMessages [hello] failing_disk_with_file_world)) =
    length [hello] + uuid_calls failing_disk_with_file_world ∧
  clock_reads (snd (addMessages [hello] failing_disk_with_file_world)) =
    length [hello] + clock_reads failing_disk_with_file_world.
Proof.
  apply (addMessages_failed_write_with_file [hello] failing_disk_with_file_world
           {| messages := [] |}); reflexivity.
Defined.

(** X9.  When db.json does not exist and the write fails, [addMessages]
    throws and there is still no file, but the stamped messages have been
    pushed onto the shared default document: a later read of the same
    process returns them after the previous history. *)
Theorem addMessages_failed_write_without_file (msgs : list object) (w : World) :
  db_json w = None →
  io_fault w (io_ops w) = false →
  io_fault w (S (io_ops w)) = true →
  Forall bare msgs →
  fst (addMessages msgs w) = Err PersistenceError ∧
  db_json (snd (addMessages msgs w)) = None ∧
  messages (store (snd (addMessages msgs w))) =
    messages (store w) ++ stamps w (uuid_calls w) (clock_reads w) msgs ∧
  history (snd (addMessages msgs w)) = history w ++ msgs.
Proof.
  intros Hfile Hread Hwrite Hbare. pose proof (addMessages_outcomes msgs w) as Hout.
  cbv zeta in Hout. destruct (addMessages msgs w) as [outcome w'].
  rewrite Hread, Hwrite, Hfile in Hout.
  destruct Hout as (_ & _ & _ & _ & _ & _ & Hdefault & -> & Hsame).
  cbn [fst snd]. unfold history, store. rewrite Hsame, Hfile, Hdefault. cbn.
  rewrite map_app, removeMetadata_stamps by done. done.
Qed.

Lemma addMessages_failed_write_without_file_witness :
  fst (addMessages [hello] failing_disk_world) = Err PersistenceError ∧
  db_json (snd (addMessages [hello] failing_disk_world)) = None ∧
  messages (store (snd (addMessages [hello] failing_disk_world))) =
    messages (store failing_disk_world) ++
    stamps failing_disk_world (uuid_calls failing_disk_world)
      (clock_reads failing_disk_world) [hello] ∧
  history (snd (addMessages [hello] failing_disk_world)) =
    history failing_disk_world ++ [hello].
Proof.
  apply (addMessages_failed_write_without_file [hello] failing_disk_world);
    try reflexivity.
  constructor; [done | constructor].
Defined.

(** X10.  Two appends that both return leave in db.json what one append of
    the two lists joined would have left: the same messages with the same
    identifiers and stamps, and the generators as far advanced. *)
Theorem addMessages_app (a b : list object) (w w1 w2 : World) :
  addMessages a w = (Ok tt, w1) →
  addMessages b w1 = (Ok tt, w2) →
  fst (addMessages (a ++ b) w) = Ok tt ∧
  db_json (snd (addMessages (a ++ b) w)) = db_json w2 ∧
  uuid_calls (snd (addMessages (a ++ b) w)) = uuid_calls w2 ∧
  clock_reads (snd (addMessages (a ++ b) w)) = clock_reads w2.
Proof.
  intros Hfirst Hsecond.
  destruct (addMessages_ok_faults a w) as [Hread Hwrite]; [by rewrite Hfirst |].
  pose proof (addMessages_cases a w) as Ha. rewrite Hfirst in Ha.
  pose proof (addMessages_cases b w1) as Hb. rewrite Hsecond in Hb.
  pose proof (addMessages_outcomes (a ++ b) w) as Hab.
  cbv zeta in Ha, Hb, Hab.
  destruct (addMessages (a ++ b) w) as [outcome w12]. cbn [fst snd].
  rewrite Hread, Hwrite in Hab.
  destruct Ha as (Hsrc & Hclk & _ & Hfile1 & Hids1 & Hclock1 & _).
  destruct Hb as (_ & _ & _ & Hfile2 & Hids2 & Hclock2 & _).
  destruct Hab as (_ & _ & _ & Hids & Hclock & _ & _ & -> & Hfile).
  split; [done |].
  rewrite Hfile, Hfile2, Hids, Hids2, Hclock, Hclock2, Hids1, Hclock1.
  rewrite !length_app. repeat split; try lia.
  unfold store at 2. rewrite Hfile1. cbn [messages].
  rewrite stamps_app, <- app_assoc.
  by rewrite (stamps_ext w w1).
Qed.

Lemma addMessages_app_witness :
  fst (addMessages ([hello] ++ [hi_there]) quiet_world) = Ok tt ∧
  db_json (snd (addMessages ([hello] ++ [hi_there]) quiet_world)) =
    db_json (snd (addMessages [hi_there] (snd (addMessages [hello] quiet_world)))) ∧
  uuid_calls (snd (addMessages ([hello] ++ [hi_there]) quiet_world)) =
    uuid_calls (snd (addMessages [hi_there] (snd (addMessages [hello] quiet_world)))) ∧
  clock_reads (snd (addMessages ([hello] ++ [hi_there]) quiet_world)) =
    clock_reads (snd (addMessages [hi_there] (snd (addMessages [hello] quiet_world)))).
Proof.
  apply (addMessages_app [hello] [hi_there] quiet_world
           (snd (addMessages [hello] quiet_world))
           (snd (addMessages [hi_there] (snd (addMessages [hello] quiet_world)))));
    apply run_eta; reflexivity.
Defined.

(** X19.  [saveToolResponse] checks nothing about the identifier of the
    tool call: two responses recorded for the same [toolCallId] are both
    stored, one after the other, each with that [tool_call_id] and its own
    content. *)
Theorem saveToolResponse_same_call_twice
    (w w1 w2 : World) (toolCallId : string) (first second : json) :
  saveToolResponse toolCallId first w = (Ok tt, w1) →
  saveToolResponse toolCallId second w1 = (Ok tt, w2) →
  ∃ s1 s2,
    messages (store w2) = messages (store w) ++ [s1; s2] ∧
    s1 !! "tool_call_id" = Some (JStr toolCallId) ∧
    s2 !! "tool_call_id" = Some (JStr toolCallId) ∧
    s1 !! "content" = Some first ∧
    s2 !! "content" = Some second ∧
    s1 !! "role" = Some (JStr "tool") ∧
    s2 !! "role" = Some (JStr "tool").
Proof.
  unfold saveToolResponse. intros Hfirst Hsecond.
  apply addMessages_store in Hfirst, Hsecond. cbn [stamps] in Hfirst, Hsecond.
  eexists _, _. split.
  - rewrite Hsecond, Hfirst, <- app_assoc. reflexivity.
  - rewrite !stamp_records by done. done.
Qed.

Lemma saveToolResponse_same_call_twice_witness :
  ∃ s1 s2,
    messages (store (snd (saveToolResponse "call_42" (JStr "again") after_tool_response))) =
      messages (store quiet_world) ++ [s1; s2] ∧
    s1 !! "tool_call_id" = Some (JStr "call_42") ∧
    s2 !! "tool_call_id" = Some (JStr "call_42") ∧
    s1 !! "content" = Some (JStr "ok") ∧
    s2 !! "content" = Some (JStr "again") ∧
    s1 !! "role" = Some (JStr "tool") ∧
    s2 !! "role" = Some (JStr "tool").
Proof.
  apply (saveToolResponse_same_call_twice quiet_world after_tool_response
           (snd (saveToolResponse "call_42" (JStr "again") after_tool_response))
           "call_42" (JStr "ok") (JStr "again")).
  - apply (run_eta (saveToolResponse "call_42" (JStr "ok"))). reflexivity.
  - apply (run_eta (saveToolResponse "call_42" (JStr "again"))). reflexivity.
Defined.

End StoreOutcomes.

(** ** The store over sequences of calls *)

Section StoreSessions.
Import Memory Spec.
Local Open Scope nat_scope.

Lemma getMessages_world (w : World) : snd (getMessages w) = next_io w.
Proof.
  unfold getMessages, getDb, read_file. rewrite !bind_run.
  destruct (io_fault w (io_ops w)); [done |].
  rewrite ret_run. unfold data. by rewrite bind_run, ret_run.
Qed.

(** One call, whatever it is and however it ends: the generators are the
    same functions, and the document in use is the previous one, followed
    either by nothing or by the messages of the call, stamped with the
    identifiers and readings that the call took. *)
Lemma perform_step (op : operation) (w : World) :
  uuid_source (perform w op) = uuid_source w ∧
  clock (perform w op) = clock w ∧
  ((messages (store (perform w op)) = messages (store w) ∧
    uuid_calls w ≤ uuid_calls (perform w op) ∧
    clock_reads w ≤ clock_reads (perform w op)) ∨
   (∃ msgs,
      messages (store (perform w op)) =
        messages (store w) ++ stamps w (uuid_calls w) (clock_reads w) msgs ∧
      uuid_calls (perform w op) = length msgs + uuid_calls w ∧
      clock_reads (perform w op) = length msgs + clock_reads w)).
Proof.
  assert (∀ msgs,
    uuid_source (snd (addMessages msgs w)) = uuid_source w ∧
    clock (snd (addMessages msgs w)) = clock w ∧
    ((messages (store (snd (addMessages msgs w))) = messages (store w) ∧
      uuid_calls w ≤ uuid_calls (snd (addMessages msgs w)) ∧
      clock_reads w ≤ clock_reads (snd (addMessages msgs w))) ∨
     (∃ msgs',
        messages (store (snd (addMessages msgs w))) =
          messages (store w) ++ stamps w (uuid_calls w) (clock_reads w) msgs' ∧
        uuid_calls (snd (addMessages msgs w)) = length msgs' + uuid_calls w ∧
        clock_reads (snd (addMessages msgs w)) = length msgs' + clock_reads w)))
    as Happend.
  { intros msgs.
    pose proof (addMessages_outcomes msgs w) as Hout. cbv zeta in Hout.
    destruct (addMessages_store_grows msgs w) as (added & Hstore & Hadded & Hnone & Hsome).
    destruct (addMessages msgs w) as [outcome w']. cbn [snd] in *.
    destruct Hout as (Hsrc & Hclk & _).
    split; [done |]. split; [done |].
    destruct added as [|s added].
    - left. rewrite Hstore, app_nil_r. by destruct (Hnone eq_refl).
    - right. exists msgs. destruct Hadded as [? | <-]; [done |].
      split; [done |]. by apply Hsome. }
  destruct op as [msgs | | toolCallId toolResponse]; cbn [perform].
  - apply Happend.
  - rewrite getMessages_world. split; [done |]. split; [done |]. by left.
  - apply Happend.
Qed.

Lemma after_snoc (ops : list operation) (op : operation) (w : World) :
  after (ops ++ [op]) w = perform (after ops w) op.
Proof. unfold after. by rewrite foldl_app. Qed.

Lemma after_generators (ops : list operation) (w : World) :
  uuid_source (after ops w) = uuid_source w ∧ clock (after ops w) = clock w.
Proof.
  induction ops as [|op ops IH] using rev_ind; [done |].
  rewrite after_snoc. destruct (perform_step op (after ops w)) as (-> & -> & _).
  exact IH.
Qed.

Lemma after_prefix (ops : list operation) (w : World) :
  messages (store w) `prefix_of` messages (store (after ops w)).
Proof.
  induction ops as [|op ops IH] using rev_ind; [done |].
  rewrite after_snoc.
  destruct (perform_step op (after ops w)) as (_ & _ & [(-> & _) | (msgs & -> & _)]).
  - exact IH.
  - by apply prefix_app_r.
Qed.

(** *** Where the metadata in the store comes from *)

Lemma origin_ext (w w' : World) (p : nat * nat) (s : object) :
  uuid_source w' = uuid_source w → clock w' = clock w →
  origin w p s → origin w' p s.
Proof. unfold origin. by intros -> ->. Qed.

Lemma stamps_origin (w : World) (i j : nat) (msgs : list object) :
  Forall2 (origin w) (zip (seq i (length msgs)) (seq j (length msgs)))
    (stamps w i j msgs).
Proof.
  revert i j. induction msgs as [|m msgs IH]; intros i j; simpl; constructor.
  - split; [apply stamp_id | apply stamp_createdAt].
  - apply IH.
Qed.

Lemma zip_seq_bounds (i j n : nat) :
  Forall (λ p, i ≤ p.1 < i + n ∧ j ≤ p.2 < j + n) (zip (seq i n) (seq j n)).
Proof.
  revert i j. induction n as [|n IH]; intros i j; simpl; constructor.
  - simpl. lia.
  - eapply Forall_impl; [apply IH |]. intros p. simpl. lia.
Qed.

Lemma zip_seq_sorted (i j n : nat) :
  StronglySorted precedes (zip (seq i n) (seq j n)).
Proof.
  revert i j. induction n as [|n IH]; intros i j; simpl; constructor.
  - apply IH.
  - eapply Forall_impl; [apply (zip_seq_bounds (S i) (S j) n) |].
    intros p. unfold precedes. simpl. lia.
Qed.

Lemma stamped_in_order_empty (w : World) :
  messages (store w) = [] → stamped_in_order w.
Proof.
  intros Hempty. exists []. rewrite Hempty.
  split; [constructor |]. split; constructor.
Qed.

Lemma stamped_in_order_perform (op : operation) (w : World) :
  stamped_in_order w → stamped_in_order (perform w op).
Proof.
  intros (origins & Hfrom & Hsorted & Hbounds).
  destruct (perform_step op w) as (Hsrc & Hclk & [(Hstore & Hids & Hclock) | Hnew]).
  - exists origins. rewrite Hstore. split.
    + eapply Forall2_impl; [exact Hfrom |]. intros p s. by apply origin_ext.
    + split; [done |]. eapply Forall_impl; [exact Hbounds |].
      intros p. simpl. lia.
  - destruct Hnew as (msgs & Hstore & Hids & Hclock).
    exists (origins ++ zip (seq (uuid_calls w) (length msgs))
                          (seq (clock_reads w) (length msgs))).
    rewrite Hstore, Hids, Hclock.
    pose proof (zip_seq_bounds (uuid_calls w) (clock_reads w) (length msgs)) as Hzip.
    split; [| split].
    + apply Forall2_app.
      * eapply Forall2_impl; [exact Hfrom |]. intros p s. by apply origin_ext.
      * eapply Forall2_impl; [apply stamps_origin |]. intros p s. by apply origin_ext.
    + apply StronglySorted_app_2; [| done | apply zip_seq_sorted].
      intros p q Hp Hq.
      pose proof (proj1 (Forall_forall _ _) Hbounds p Hp) as Hlow.
      pose proof (proj1 (Forall_forall _ _) Hzip q Hq) as Hhigh.
      unfold precedes. simpl in *. lia.
    + apply Forall_app. split.
      * eapply Forall_impl; [exact Hbounds |]. intros p. simpl. lia.
      * eapply Forall_impl; [exact Hzip |]. intros p. simpl. lia.
Qed.

Lemma stamped_in_order_after_any (ops : list operation) (w : World) :
  stamped_in_order w → stamped_in_order (after ops w).
Proof.
  intros Hw. induction ops as [|op ops IH] using rev_ind; [done |].
  rewrite after_snoc. by apply stamped_in_order_perform.
Qed.

Lemma StronglySorted_lookup_lt {A} (R : relation A) (l : list A) (a b : nat) (x y : A) :
  StronglySorted R l → l !! a = Some x → l !! b = Some y → a < b → R x y.
Proof.
  intros Hsorted. revert a b.
  induction Hsorted as [|z l _ IH Hall]; intros a b Ha Hb Hab; [done |].
  destruct b as [|b]; [lia |]. destruct a as [|a].
  - injection Ha as <-. eapply Forall_lookup_1; [exact Hall | exact Hb].
  - apply (IH a b); [done | done | lia].
Qed.

Lemma origins_distinct_ids (w : World) (origins : list (nat * nat)) (stored : list object) :
  fresh_ids w →
  Forall2 (origin w) origins stored →
  StronglySorted precedes origins →
  NoDup ((λ s : object, s !! "id") <$> stored).
Proof.
  intros Hfresh Hfrom. induction Hfrom as [|p s origins stored Hps Hfrom IH];
    intros Hsorted; [constructor |].
  apply StronglySorted_cons in Hsorted as [Hrest Hsorted].
  rewrite fmap_cons. constructor; [| by apply IH].
  intros Hin. apply list_elem_of_fmap in Hin as (s' & Hsame & Hin).
  apply list_elem_of_lookup in Hin as [k Hk].
  destruct (Forall2_lookup_r _ _ _ _ _ Hfrom Hk) as (q & Hq & Hqs).
  pose proof (Forall_lookup_1 _ _ _ _ Hrest Hq) as Hpq.
  destruct Hps as [Hid _]. destruct Hqs as [Hid' _].
  rewrite Hid, Hid' in Hsame. apply Some_JStr_inj, Hfresh in Hsame.
  unfold precedes in Hpq. lia.
Qed.

Lemma sample_session_clock_reads :
  clock_reads (after sample_session failing_disk_world) = 4.
Proof. reflexivity. Qed.

(** X11.  The store is append-only: after any sequence of appends, reads
    and tool responses, returned or thrown, the messages that were in the
    store are still there, unchanged and at the same positions, at the
    head of the document. *)
Theorem store_append_only (ops : list operation) (w : World) :
  messages (store w) `prefix_of` messages (store (after ops w)) ∧
  ∀ (k : nat) (s : object),
    messages (store w) !! k = Some s →
    messages (store (after ops w)) !! k = Some s.
Proof.
  pose proof (after_prefix ops w) as Hprefix.
  split; [done |]. intros k s Hk. by eapply prefix_lookup_Some.
Qed.

(** X12.  Every sequence of calls keeps the provenance of the metadata: if
    each stored message has its identifier and stamp from a call of the
    generator and a reading of the clock already made, later messages
    from later ones, then this is so after the calls as well.  It is so on
    an empty store. *)
Theorem stamped_in_order_after (ops : list operation) (w : World) :
  stamped_in_order w → stamped_in_order (after ops w).
Proof. apply stamped_in_order_after_any. Qed.

Lemma stamped_in_order_after_witness :
  stamped_in_order (after sample_session failing_disk_world).
Proof.
  apply (stamped_in_order_after sample_session failing_disk_world).
  apply stamped_in_order_empty. reflexivity.
Defined.

(** X13.  Starting from an empty store, with an identifier generator that
    never repeats, the stored messages have pairwise different [id]s after
    any sequence of calls, failed ones included. *)
Theorem stored_ids_distinct (ops : list operation) (w : World) :
  messages (store w) = [] →
  fresh_ids w →
  NoDup ((λ s : object, s !! "id") <$> messages (store (after ops w))).
Proof.
  intros Hempty Hfresh.
  destruct (stamped_in_order_after_any ops w (stamped_in_order_empty w Hempty))
    as (origins & Hfrom & Hsorted & _).
  apply (origins_distinct_ids (after ops w) origins); [| done | done].
  unfold fresh_ids. by rewrite (proj1 (after_generators ops w)).
Qed.

Lemma stored_ids_distinct_witness :
  NoDup ((λ s : object, s !! "id")
           <$> messages (store (after sample_session failing_disk_world))).
Proof.
  apply (stored_ids_distinct sample_session failing_disk_world).
  - reflexivity.
  - exact quiet_world_fresh_ids.
Defined.

(** X14.  Starting from an empty store, with a clock that is never set
    back and stays in the years 0000 to 9999, the store is sorted by
    [createdAt] after any sequence of calls: of two stored messages the
    later one never has the smaller stamp. *)
Theorem stored_stamps_sorted (ops : list operation) (w : World) :
  messages (store w) = [] →
  steady_clock w →
  (∀ j : nat, j < clock_reads (after ops w) → common_era (clock w j)) →
  ∀ (a b : nat) (sa sb : object),
    a ≤ b →
    messages (store (after ops w)) !! a = Some sa →
    messages (store (after ops w)) !! b = Some sb →
    ∃ ca cb,
      sa !! "createdAt" = Some (JStr ca) ∧ sb !! "createdAt" = Some (JStr cb) ∧
      String.leb ca cb = true.
Proof.
  intros Hempty Hsteady Hera a b sa sb Hab Ha Hb.
  destruct (stamped_in_order_after_any ops w (stamped_in_order_empty w Hempty))
    as (origins & Hfrom & Hsorted & Hbounds).
  destruct (Forall2_lookup_r _ _ _ _ _ Hfrom Ha) as (p & Hp & [_ Hpa]).
  destruct (Forall2_lookup_r _ _ _ _ _ Hfrom Hb) as (q & Hq & [_ Hqb]).
  rewrite (proj2 (after_generators ops w)) in Hpa, Hqb.
  exists (Iso.toISOString (clock w p.2)), (Iso.toISOString (clock w q.2)).
  split; [done |]. split; [done |].
  pose proof (Forall_lookup_1 _ _ _ _ Hbounds Hp) as [_ Hpr].
  pose proof (Forall_lookup_1 _ _ _ _ Hbounds Hq) as [_ Hqr].
  assert (p.2 ≤ q.2) as Hle.
  { destruct (decide (a = b)) as [-> | Hne].
    - rewrite Hp in Hq. by injection Hq as ->.
    - pose proof (StronglySorted_lookup_lt _ _ a b p q Hsorted Hp Hq ltac:(lia)) as Hpq.
      unfold precedes in Hpq. lia. }
  apply toISOString_leb.
  - apply (Hera p.2 Hpr).
  - by apply Hsteady.
  - apply (Hera q.2 Hqr).
Qed.

Lemma stored_stamps_sorted_witness :
  ∃ ca cb,
    stamp failing_disk_world 0 0 hello !! "createdAt" = Some (JStr ca) ∧
    stamp failing_disk_world 3 3 hello !! "createdAt" = Some (JStr cb) ∧
    String.leb ca cb = true.
Proof.
  apply (stored_stamps_sorted sample_session failing_disk_world) with (a := 0) (b := 3).
  - reflexivity.
  - exact quiet_world_steady_clock.
  - intros j Hj. rewrite sample_session_clock_reads in Hj.
    unfold common_era.
    change (clock failing_disk_world j) with (1730543696789 + Z.of_nat j)%Z. lia.
  - lia.
  - reflexivity.
  - reflexivity.
Defined.

(** The session written out: the first append fails on its write, and its
    message is nevertheless the first of the four that end up in db.json. *)
Example sample_session_values :
  fst (addMessages [hello] failing_disk_world) = Err PersistenceError ∧
  (map removeMetadata ∘ messages) <$> db_json (after sample_session failing_disk_world) =
    Some [hello; tool_message "call_42" (JStr "ok"); hi_there; hello] ∧
  uuid_calls (after sample_session failing_disk_world) = 4.
Proof. repeat split; reflexivity. Qed.

End StoreSessions.

(** ** The request [runLLM] submits and the reply it returns *)

Section Invocation.
Import LLM Spec.

Variable systemPrompt : string.
Variable AnyZodObject : Type.
Variable zodToJsonSchema : AnyZodObject → json.

Local Abbreviation runLLM := (LLM.runLLM systemPrompt AnyZodObject zodToJsonSchema).
Local Abbreviation zodFunction := (LLM.zodFunction AnyZodObject zodToJsonSchema).

(** [runLLM] submits one request, whatever the endpoint answers. *)
Lemma runLLM_submits_once (endpoint : Endpoint) (args : Args AnyZodObject) :
  ∃ req,
    submitted endpoint (runLLM args) = [req] ∧
    model req = default "mistral-nemo:latest" (arg_model args) ∧
    temperature req = default 0.1%Q (arg_temperature args) ∧
    messages req = system_message systemPrompt :: arg_messages args ∧
    tools req = map zodFunction (default [] (arg_tools args)) ∧
    tool_choice req = "auto" ∧
    parallel_tool_calls req = false ∧
    outcome endpoint (runLLM args) =
      match endpoint req with
      | Ok response =>
          match choices response !! 0%nat with
          | Some choice => Ok (message choice)
          | None => Err TypeError
          end
      | Err e => Err e
      end.
Proof.
  unfold submitted, outcome, LLM.runLLM. cbn [run].
  match goal with
  | |- context [endpoint ?r] => exists r; destruct (endpoint r) as [response|e]
  end.
  - destruct (choices response !! 0%nat); cbn; repeat split; reflexivity.
  - cbn. repeat split; reflexivity.
Qed.

(** C4.  Whatever the model, the temperature, the messages and the tools,
    the request [runLLM] submits carries [tool_choice = "auto"] and
    [parallel_tool_calls = false]; no submitted request permits parallel
    tool calls. *)
Theorem runLLM_policy_flags (endpoint : Endpoint) (args : Args AnyZodObject) :
  (∃ req,
     submitted endpoint (runLLM args) = [req] ∧
     tool_choice req = "auto" ∧ parallel_tool_calls req = false) ∧
  Forall (λ req, tool_choice req = "auto" ∧ parallel_tool_calls req = false)
    (submitted endpoint (runLLM args)).
Proof.
  destruct (runLLM_submits_once endpoint args)
    as (req & Hsent & _ & _ & _ & _ & Hchoice & Hparallel & _).
  split; [by exists req |].
  rewrite Hsent. by repeat constructor.
Qed.

(** C5.  The messages of the submitted request are one system message,
    whose content is the system prompt, followed by the given messages,
    unchanged and in their order: nothing else is added, removed or
    moved. *)
Theorem runLLM_prepends_system_message (endpoint : Endpoint) (args : Args AnyZodObject) :
  ∃ req,
    submitted endpoint (runLLM args) = [req] ∧
    messages req = system_message systemPrompt :: arg_messages args ∧
    system_message systemPrompt !! "role" = Some (JStr "system") ∧
    system_message systemPrompt !! "content" = Some (JStr systemPrompt) ∧
    dom (system_message systemPrompt) = {["role"; "content"]} ∧
    length (messages req) = S (length (arg_messages args)) ∧
    messages req !! 0%nat = Some (system_message systemPrompt) ∧
    drop 1 (messages req) = arg_messages args.
Proof.
  destruct (runLLM_submits_once endpoint args)
    as (req & Hsent & _ & _ & Hmessages & _).
  exists req. rewrite Hmessages.
  repeat split; try done; unfold system_message; rewrite !dom_insert_L; set_solver.
Qed.

(** C6.  Called with no tools (an empty array, or the property left out)
    [runLLM] submits a request without tool definitions whose
    [tool_choice] is still "auto"; called with one ToolDescriptor it
    submits exactly one tool definition, and that definition has the name
    of the descriptor. *)
Theorem runLLM_tool_definitions
    (endpoint : Endpoint) (model : option string) (temperature : option Q)
    (msgs : list object) (tool : ToolDescriptor AnyZodObject) :
  (∃ req,
     submitted endpoint
       (runLLM {| arg_model := model; arg_messages := msgs;
                  arg_temperature := temperature; arg_tools := Some [] |}) = [req] ∧
     tools req = [] ∧ tool_choice req = "auto") ∧
  (∃ req,
     submitted endpoint
       (runLLM {| arg_model := model; arg_messages := msgs;
                  arg_temperature := temperature; arg_tools := None |}) = [req] ∧
     tools req = [] ∧ tool_choice req = "auto") ∧
  (∃ req definition,
     submitted endpoint
       (runLLM {| arg_model := model; arg_messages := msgs;
                  arg_temperature := temperature; arg_tools := Some [tool] |}) = [req] ∧
     tools req = [definition] ∧
     def_name definition = name tool ∧
     def_parameters definition = zodToJsonSchema (parameters tool) ∧
     tool_choice req = "auto").
Proof.
  repeat split.
  - edestruct runLLM_submits_once as (req & Hsent & _ & _ & _ & Htools & Hchoice & _).
    exists req. split; [exact Hsent |]. by rewrite Htools.
  - edestruct runLLM_submits_once as (req & Hsent & _ & _ & _ & Htools & Hchoice & _).
    exists req. split; [exact Hsent |]. by rewrite Htools.
  - edestruct runLLM_submits_once as (req & Hsent & _ & _ & _ & Htools & Hchoice & _).
    exists req, (zodFunction tool). split; [exact Hsent |]. by rewrite Htools.
Qed.

(** C10.  [runLLM] returns the message of the first choice of the
    response and does not check that there is one.  When the response
    has at least one choice, [choices[0]] exists and its message is
    returned; when the list of choices is empty, index 0 is out of bounds
    and the property access on the missing element throws. *)
Theorem runLLM_first_choice
    (endpoint : Endpoint) (args : Args AnyZodObject) (response : Response) :
  answered endpoint (runLLM args) = Some (Ok response) →
  (choices response ≠ [] →
   ∃ choice, choices response !! 0%nat = Some choice ∧
             head (choices response) = Some choice ∧
             outcome endpoint (runLLM args) = Ok (message choice)) ∧
  (choices response = [] →
   choices response !! 0%nat = None ∧
   ¬ (0 < length (choices response)) ∧
   outcome endpoint (runLLM args) = Err TypeError).
Proof.
  unfold answered. intros Hanswer.
  destruct (runLLM_submits_once endpoint args)
    as (req & Hsent & _ & _ & _ & _ & _ & _ & Hout).
  rewrite Hsent in Hanswer. injection Hanswer as Hanswer.
  rewrite Hanswer in Hout. split.
  - intros Hsome. destruct (choices response) as [|choice rest]; [done |].
    exists choice. by rewrite Hout.
  - intros Hnone. rewrite Hout, Hnone. cbn. repeat split. lia.
Qed.

End Invocation.

Lemma runLLM_first_choice_witness :
  (LLM.choices
     {| LLM.choices :=
          [{| LLM.index := 0; LLM.message := Spec.hi_there;
              LLM.finish_reason := "stop" |}] |} ≠ [] →
   ∃ choice,
     LLM.choices
       {| LLM.choices :=
            [{| LLM.index := 0; LLM.message := Spec.hi_there;
                LLM.finish_reason := "stop" |}] |} !! 0%nat = Some choice ∧
     head
       (LLM.choices
          {| LLM.choices :=
               [{| LLM.index := 0; LLM.message := Spec.hi_there;
                   LLM.finish_reason := "stop" |}] |}) = Some choice ∧
     Spec.outcome (Spec.replying Spec.hi_there)
       (LLM.runLLM "Be brief." json id Spec.sample_args) = Ok (LLM.message choice)) ∧
  (LLM.choices
     {| LLM.choices :=
          [{| LLM.index := 0; LLM.message := Spec.hi_there;
              LLM.finish_reason := "stop" |}] |} = [] →
   LLM.choices
     {| LLM.choices :=
          [{| LLM.index := 0; LLM.message := Spec.hi_there;
              LLM.finish_reason := "stop" |}] |} !! 0%nat = None ∧
   ¬ (0 < length
            (LLM.choices
               {| LLM.choices :=
                    [{| LLM.index := 0; LLM.message := Spec.hi_there;
                        LLM.finish_reason := "stop" |}] |})) ∧
   Spec.outcome (Spec.replying Spec.hi_there)
     (LLM.runLLM "Be brief." json id Spec.sample_args) = Err TypeError).
Proof.
  apply (runLLM_first_choice "Be brief." json id (Spec.replying Spec.hi_there)
           Spec.sample_args
           {| LLM.choices :=
                [{| LLM.index := 0; LLM.message := Spec.hi_there;
                    LLM.finish_reason := "stop" |}] |}).
  reflexivity.
Defined.

(** The reply of that endpoint is what the call returns. *)
Example runLLM_returns_reply :
  Spec.outcome (Spec.replying Spec.hi_there)
    (LLM.runLLM "Be brief." json id Spec.sample_args) = Ok Spec.hi_there.
Proof. reflexivity. Qed.

(** A request the endpoint rejects fails the call with the endpoint's
    error. *)
Example runLLM_rejected :
  Spec.outcome (λ _, Err EndpointError)
    (LLM.runLLM "Be brief." json id Spec.sample_args) = Err EndpointError.
Proof. reflexivity. Qed.

(** With an empty list of choices the call throws. *)
Example runLLM_no_choice :
  Spec.outcome Spec.speechless (LLM.runLLM "Be brief." json id Spec.sample_args)
  = Err TypeError.
Proof. reflexivity. Qed.

(** ** More on the request: defaults, any number of tools, rejection *)

Section InvocationMore.
Import LLM Spec.

Variable systemPrompt : string.
Variable AnyZodObject : Type.
Variable zodToJsonSchema : AnyZodObject → json.

Local Abbreviation runLLM := (LLM.runLLM systemPrompt AnyZodObject zodToJsonSchema).

(** X15.  A call that leaves out [model] and [temperature] asks for the
    second entry of [models], "mistral-nemo:latest", at temperature 0.1; a
    call that gives them has them passed on as they are, whether or not the
    model is one of [models]. *)
Theorem runLLM_defaults
    (endpoint : Endpoint) (msgs : list object)
    (tools : option (list (ToolDescriptor AnyZodObject)))
    (model : string) (temperature : Q) :
  (∃ req,
     submitted endpoint
       (runLLM {| arg_model := None; arg_messages := msgs;
                  arg_temperature := None; arg_tools := tools |}) = [req] ∧
     LLM.model req = "mistral-nemo:latest" ∧
     models !! 1%nat = Some (LLM.model req) ∧
     LLM.temperature req = 0.1%Q) ∧
  (∃ req,
     submitted endpoint
       (runLLM {| arg_model := Some model; arg_messages := msgs;
                  arg_temperature := Some temperature; arg_tools := tools |}) = [req] ∧
     LLM.model req = model ∧
     LLM.temperature req = temperature).
Proof.
  split.
  - edestruct runLLM_submits_once as (req & Hsent & Hmodel & Htemp & _).
    exists req. split; [exact Hsent |]. by rewrite Hmodel, Htemp.
  - edestruct runLLM_submits_once as (req & Hsent & Hmodel & Htemp & _).
    exists req. split; [exact Hsent |]. by rewrite Hmodel, Htemp.
Qed.

(** X16.  For any number of tools the request carries one tool definition
    per ToolDescriptor, in the order given, each with the name of its
    descriptor and the translation of its parameters. *)
Theorem runLLM_tools_in_order
    (endpoint : Endpoint) (model : option string) (temperature : option Q)
    (msgs : list object) (tools : list (ToolDescriptor AnyZodObject)) :
  ∃ req,
    submitted endpoint
      (runLLM {| arg_model := model; arg_messages := msgs;
                 arg_temperature := temperature; arg_tools := Some tools |}) = [req] ∧
    length (LLM.tools req) = length tools ∧
    def_name <$> LLM.tools req = name <$> tools ∧
    def_parameters <$> LLM.tools req = (zodToJsonSchema ∘ parameters) <$> tools ∧
    tool_choice req = "auto".
Proof.
  edestruct runLLM_submits_once as (req & Hsent & _ & _ & _ & Htools & Hchoice & _).
  exists req. split; [exact Hsent |]. rewrite Htools. cbn [arg_tools default].
  split; [apply length_map |].
  change (map ?f ?l) with (f <$> l).
  split; [| split; [| done]]; by rewrite <- list_fmap_compose.
Qed.

(** X17.  When the endpoint rejects the request, [runLLM] fails with the
    endpoint's error and has submitted that one request only: it does not
    try again. *)
Theorem runLLM_rejection
    (endpoint : Endpoint) (args : Args AnyZodObject) (e : error) :
  answered endpoint (runLLM args) = Some (Err e) →
  outcome endpoint (runLLM args) = Err e ∧
  length (submitted endpoint (runLLM args)) = 1.
Proof.
  unfold answered. intros Hanswer.
  destruct (runLLM_submits_once systemPrompt AnyZodObject zodToJsonSchema endpoint args)
    as (req & Hsent & _ & _ & _ & _ & _ & _ & Hout).
  rewrite Hsent in Hanswer |- *. injection Hanswer as Hanswer.
  by rewrite Hanswer in Hout.
Qed.

(** X18.  The history that [getMessages] returns, passed on to [runLLM],
    reaches the endpoint behind the system message and without metadata:
    no message of the request has an [id] or a [createdAt]. *)
Theorem getMessages_to_runLLM
    (endpoint : Endpoint) (w : Memory.World)
    (model : option string) (temperature : option Q)
    (tools : option (list (ToolDescriptor AnyZodObject))) :
  Memory.io_fault w (Memory.io_ops w) = false →
  ∃ h req,
    fst (Memory.getMessages w) = Ok h ∧
    submitted endpoint
      (runLLM {| arg_model := model; arg_messages := h;
                 arg_temperature := temperature; arg_tools := tools |}) = [req] ∧
    LLM.messages req = system_message systemPrompt :: Memory.history w ∧
    Forall bare (LLM.messages req).
Proof.
  intros Hread. exists (Memory.history w).
  edestruct runLLM_submits_once as (req & Hsent & _ & _ & Hmessages & _).
  exists req. split; [by rewrite getMessages_run |].
  split; [exact Hsent |]. rewrite Hmessages. split; [done |].
  constructor; [done |].
  unfold Memory.history. apply Forall_fmap, Forall_true. intros s.
  apply removeMetadata_bare.
Qed.

End InvocationMore.

Lemma runLLM_rejection_witness :
  Spec.outcome (λ _, Err EndpointError)
    (LLM.runLLM "Be brief." json id Spec.sample_args) = Err EndpointError ∧
  length (Spec.submitted (λ _, Err EndpointError)
            (LLM.runLLM "Be brief." json id Spec.sample_args)) = 1.
Proof.
  apply (runLLM_rejection "Be brief." json id (λ _, Err EndpointError)
           Spec.sample_args EndpointError).
  reflexivity.
Defined.

Lemma getMessages_to_runLLM_witness :
  ∃ h req,
    fst (Memory.getMessages Spec.after_two_messages) = Ok h ∧
    Spec.submitted (Spec.replying Spec.hi_there)
      (LLM.runLLM "Be brief." json id
         {| LLM.arg_model := None; LLM.arg_messages := h;
            LLM.arg_temperature := None; LLM.arg_tools := None |}) = [req] ∧
    LLM.messages req =
      LLM.system_message "Be brief." :: Memory.history Spec.after_two_messages ∧
    Forall Spec.bare (LLM.messages req).
Proof.
  apply (getMessages_to_runLLM "Be brief." json id (Spec.replying Spec.hi_there)
           Spec.after_two_messages None None None).
  reflexivity.
Defined.
